(** * The HTTP/2 client protocol of scrapy: [scrapy/core/http2/protocol.py]

    A shallow embedding of [H2ClientProtocol]: the stream-id generator, the
    stream registry, the pending request pool, the active-stream counter,
    the admission loop, the event dispatcher and the connection-level
    failure paths, followed by the properties of the design document that
    are settled against it.

    Python integers are unbounded: they are [Z].  A method that mutates
    [self] is a computation in the monad [M] below: a state transformer
    over [H2ClientProtocol] that either returns or raises, and keeps the
    mutations done before the raise, as Python does. *)

From Stdlib Require Import ZArith String Strings.Byte Lia Permutation.
From stdpp Require Import base tactics option numbers list sorting.

Local Open Scope Z_scope.

(** ** Values exchanged with the collaborators *)

Definition bytes : Type := list byte.
Definition Headers : Type := list (string * string).

(** Modelled from the spec: [scrapy.http.Request] is not part of the
    sources at hand; the design document says it is opaque to this core
    beyond needing headers and a body to send. *)
Record Request : Type := mkRequest {
  req_headers : Headers;
  req_body : bytes
}.

(** What a caller may hand to [request]: a [Request] instance, or an
    object of any other class (known by its [__qualname__]). *)
Inductive PyObject : Type :=
| PyRequest (r : Request)
| PyOther (qualname : string).

(** [h2.errors.ErrorCodes]: the two members the protocol uses. *)
Inductive ErrorCodes : Type := NO_ERROR | PROTOCOL_ERROR.

(** [h2.events]: the event classes [_handle_events] tests for, and one
    constructor for every other event class (which no branch matches). *)
Inductive Event : Type :=
| ConnectionTerminated (error_code : Z) (last_stream_id : Z)
| DataReceived (stream_id : Z) (data : bytes) (flow_controlled_length : Z)
| ResponseReceived (stream_id : Z) (headers : Headers)
| StreamEnded (stream_id : Z)
| StreamReset (stream_id : Z)
| WindowUpdated (stream_id : Z)
| SettingsAcknowledged
| UnknownFrameReceived (frame : bytes)
| OtherEvent (class_name : string).

(** Exceptions that travel through the protocol's methods. *)
Inductive Exception : Type :=
| TypeError (msg : string)
| KeyError (key : Z)
| ProtocolError (msg : string)
| AlreadyCalledError
| OtherError (class_name : string).

(** [twisted.python.failure.Failure] as [connectionLost] uses it: the
    object answers [reason.check(connectionDone)]. *)
Record Failure : Type := mkFailure {
  failure_value : string;
  check_connectionDone : bool
}.

(** The members of [_conn_lost_errors]. *)
Inductive ConnLostError : Type :=
| CaughtError (e : Exception)
| RemoteTerminatedConnection (remote_ip_address : option string) (terminate_event : Event)
| TimeoutError (msg : string)
| LostReason (reason : Failure).

(** Modelled from the spec: [StreamCloseReason] lives in
    [scrapy/core/http2/stream.py], which is not part of the sources at
    hand; these are the four reasons of the close-reason taxonomy. *)
Inductive StreamCloseReason : Type := ENDED | RESET | CONNECTION_LOST | INACTIVE.

(** What a stream's completion is fulfilled with. *)
Inductive Completion : Type :=
| Response (headers : option Headers) (body : list bytes)
| Failed (reason : StreamCloseReason) (causes : list ConnLostError).

(** ** The codec ([h2.connection.H2Connection]) at its boundary

    The protocol reads the two advertised concurrency limits and the two
    open-stream counters, asks the codec to close the connection, and
    drains the bytes the codec wants to send.  What the codec buffers for
    sending is kept as a list of frames. *)
Inductive Frame : Type :=
| GoAway (code : ErrorCodes)
| RequestFrames (stream_id : Z) (r : Request)
| RawFrame (data : bytes).

Module H2Connection.
Record t : Type := mk {
    local_max_concurrent_streams : Z;
    remote_max_concurrent_streams : Z;
    open_outbound_streams : Z;
    open_inbound_streams : Z;
    outbound : list Frame
  }.

Definition enqueue (f : Frame) (c : t) : t :=
    mk (local_max_concurrent_streams c) (remote_max_concurrent_streams c)
       (open_outbound_streams c) (open_inbound_streams c) (outbound c ++ [f]).

(** [close_connection(error_code)]: a GOAWAY frame is queued. *)
Definition close_connection (code : ErrorCodes) (c : t) : t :=
    enqueue (GoAway code) c.

(** [data_to_send()]: hands out everything buffered and empties the buffer. *)
Definition data_to_send (c : t) : list Frame * t :=
    (outbound c,
     mk (local_max_concurrent_streams c) (remote_max_concurrent_streams c)
        (open_outbound_streams c) (open_inbound_streams c) []).
End H2Connection.

(** ** The transport (a Twisted transport) *)
Module Transport.
Record t : Type := mk {
    connected : bool;
    disconnecting : bool;
    written : list (list Frame);
    peer_certificate : option string
  }.

Definition write (data : list Frame) (tr : t) : t :=
    mk (connected tr) (disconnecting tr) (written tr ++ [data]) (peer_certificate tr).

Definition loseConnection (tr : t) : t :=
    mk (connected tr) true (written tr) (peer_certificate tr).
End Transport.

(** ** [twisted.internet.defer.Deferred], as far as [callback] goes:
    firing a deferred that has already fired raises [AlreadyCalledError].
    [result] is the list as it is when the deferred fires. *)
Module Deferred.
Record t : Type := mk {
    called : bool;
    result : list ConnLostError
  }.

Definition callback (errors : list ConnLostError) (d : t) : option t :=
    if called d then None else Some (mk true errors).
End Deferred.

(** ** Streams

    Modelled from the spec: [scrapy/core/http2/stream.py] is not part of
    the sources at hand.  A stream has an immutable id and request, the
    flag [request_sent], the accumulated response, and a single-assignment
    completion set together with the close reason. *)
Module Stream.
Record t : Type := mk {
    stream_id : Z;
    request : Request;
    request_sent : bool;
    response_headers : option Headers;
    response_body : list bytes;
    close_reason : option StreamCloseReason;
    completion : option Completion
  }.

Definition new (id : Z) (r : Request) : t := mk id r false None [] None None.

(** [initiate()]: the request has been handed to the codec. *)
Definition initiate_request (st : t) : t :=
    mk (stream_id st) (request st) true (response_headers st) (response_body st)
       (close_reason st) (completion st).

(** [receiveHeaders], [receiveData]: accumulate partial response state. *)
Definition receive_headers (h : Headers) (st : t) : t :=
    mk (stream_id st) (request st) (request_sent st) (Some h) (response_body st)
       (close_reason st) (completion st).

Definition receive_data (data : bytes) (st : t) : t :=
    mk (stream_id st) (request st) (request_sent st) (response_headers st)
       (response_body st ++ [data]) (close_reason st) (completion st).

Definition outcome (reason : StreamCloseReason) (causes : list ConnLostError) (st : t)
    : Completion :=
    match reason with
    | ENDED => Response (response_headers st) (response_body st)
    | _ => Failed reason causes
    end.

(** [close(reason, causes, fromProtocol)]: a no-op on a stream that is
      already closed; otherwise the completion is fulfilled and the close
      reason recorded. *)
Definition close (reason : StreamCloseReason) (causes : list ConnLostError) (st : t) : t :=
    match close_reason st with
    | Some _ => st
    | None =>
        mk (stream_id st) (request st) (request_sent st) (response_headers st)
           (response_body st) (Some reason) (Some (outcome reason causes st))
    end.
End Stream.

(** A reference to a [Stream] object: its index in the object store. *)
Abbreviation Ref := nat (only parsing).

(** The calls the protocol makes on [Stream] objects, in program order. *)
Inductive StreamCall : Type :=
| Call_initiate_request (stream : Ref)
| Call_receive_data (stream : Ref) (data : bytes) (flow_controlled_length : Z)
| Call_receive_headers (stream : Ref) (headers : Headers)
| Call_receive_window_update (stream : Ref)
| Call_close (stream : Ref) (reason : StreamCloseReason) (errors : list ConnLostError)
             (from_protocol : bool).

(** ** Python containers *)

(** [itertools.count(start, step)]. *)
Module Count.
Record t : Type := mk { next_value : Z; step : Z }.
Definition next (c : t) : Z * t := (next_value c, mk (next_value c + step c) (step c)).
End Count.

(** A [dict] with integer keys: an association list in insertion order
    whose keys are kept unique by [dict_set]. *)
Section Dict.
Context {V : Type}.

Fixpoint dict_get (k : Z) (d : list (Z * V)) : option V :=
    match d with
    | [] => None
    | (k', v) :: d' => if Z.eqb k k' then Some v else dict_get k d'
    end.

(** [d[k] = v] *)
Fixpoint dict_set (k : Z) (v : V) (d : list (Z * V)) : list (Z * V) :=
    match d with
    | [] => [(k, v)]
    | (k', v') :: d' => if Z.eqb k k' then (k, v) :: d' else (k', v') :: dict_set k v d'
    end.

(** [d.pop(k)]: [None] stands for the [KeyError]. *)
Fixpoint dict_pop (k : Z) (d : list (Z * V)) : option (V * list (Z * V)) :=
    match d with
    | [] => None
    | (k', v) :: d' =>
        if Z.eqb k k' then Some (v, d')
        else match dict_pop k d' with
             | Some (x, d'') => Some (x, (k', v) :: d'')
             | None => None
             end
    end.

Definition dict_keys (d : list (Z * V)) : list Z := map fst d.
Definition dict_values (d : list (Z * V)) : list V := map snd d.
End Dict.

(** ** The protocol object *)

(** [twisted.internet.ssl.Certificate], wrapping what the transport gave. *)
Inductive Certificate : Type := mkCertificate (original : option string).

(** [H2ConnectionMetadataDict] *)
Record Metadata : Type := mkMetadata {
  certificate : option Certificate;
  ip_address : option string;
  uri : string;
  default_download_maxsize : Z;
  default_download_warnsize : Z
}.

Record H2ClientProtocol : Type := mkProtocol {
  _conn_lost_deferred : option Deferred.t;
  conn : H2Connection.t;
  _stream_id_generator : Count.t;
(** [Dict[int, Stream]]: the values are references into [objects] *)
  streams : list (Z * Ref);
(** the deque of streams waiting for admission, head first *)
  _pending_request_stream_pool : list Ref;
  _active_streams : Z;
  _settings_acknowledged : bool;
  _conn_lost_errors : list ConnLostError;
  metadata : Metadata;
  transport : Transport.t;
(** [TimeoutMixin.timeOut] *)
  timeOut : option Z;
(** every [Stream] object created so far, in creation order; [streams]
      and [_pending_request_stream_pool] share these objects *)
  objects : list Stream.t;
(** the calls made on [Stream] objects so far *)
  calls : list StreamCall
}.

Definition IDLE_TIMEOUT : Z := 240.

(** [__init__]: the codec instance and the transport are those the
    connection is set up with. *)
Definition init (uri0 : string) (maxsize warnsize : Z)
    (conn_lost_deferred : option Deferred.t)
    (conn0 : H2Connection.t) (transport0 : Transport.t) : H2ClientProtocol :=
  {| _conn_lost_deferred := conn_lost_deferred;
     conn := conn0;
     _stream_id_generator := Count.mk 1 2;
     streams := [];
     _pending_request_stream_pool := [];
     _active_streams := 0;
     _settings_acknowledged := false;
     _conn_lost_errors := [];
     metadata := mkMetadata None None uri0 maxsize warnsize;
     transport := transport0;
     timeOut := None;
     objects := [];
     calls := [] |}.

(** Field updates. *)
Definition set_conn_lost_deferred (d : option Deferred.t) (s : H2ClientProtocol) :=
  mkProtocol d (conn s) (_stream_id_generator s) (streams s)
    (_pending_request_stream_pool s) (_active_streams s) (_settings_acknowledged s)
    (_conn_lost_errors s) (metadata s) (transport s) (timeOut s) (objects s) (calls s).

Definition set_conn (c : H2Connection.t) (s : H2ClientProtocol) :=
  mkProtocol (_conn_lost_deferred s) c (_stream_id_generator s) (streams s)
    (_pending_request_stream_pool s) (_active_streams s) (_settings_acknowledged s)
    (_conn_lost_errors s) (metadata s) (transport s) (timeOut s) (objects s) (calls s).

Definition set_stream_id_generator (g : Count.t) (s : H2ClientProtocol) :=
  mkProtocol (_conn_lost_deferred s) (conn s) g (streams s)
    (_pending_request_stream_pool s) (_active_streams s) (_settings_acknowledged s)
    (_conn_lost_errors s) (metadata s) (transport s) (timeOut s) (objects s) (calls s).

Definition set_streams (d : list (Z * Ref)) (s : H2ClientProtocol) :=
  mkProtocol (_conn_lost_deferred s) (conn s) (_stream_id_generator s) d
    (_pending_request_stream_pool s) (_active_streams s) (_settings_acknowledged s)
    (_conn_lost_errors s) (metadata s) (transport s) (timeOut s) (objects s) (calls s).

Definition set_pending_request_stream_pool (q : list Ref) (s : H2ClientProtocol) :=
  mkProtocol (_conn_lost_deferred s) (conn s) (_stream_id_generator s) (streams s)
    q (_active_streams s) (_settings_acknowledged s)
    (_conn_lost_errors s) (metadata s) (transport s) (timeOut s) (objects s) (calls s).

Definition set_active_streams (n : Z) (s : H2ClientProtocol) :=
  mkProtocol (_conn_lost_deferred s) (conn s) (_stream_id_generator s) (streams s)
    (_pending_request_stream_pool s) n (_settings_acknowledged s)
    (_conn_lost_errors s) (metadata s) (transport s) (timeOut s) (objects s) (calls s).

Definition set_settings_acknowledged (b : bool) (s : H2ClientProtocol) :=
  mkProtocol (_conn_lost_deferred s) (conn s) (_stream_id_generator s) (streams s)
    (_pending_request_stream_pool s) (_active_streams s) b
    (_conn_lost_errors s) (metadata s) (transport s) (timeOut s) (objects s) (calls s).

Definition set_conn_lost_errors (l : list ConnLostError) (s : H2ClientProtocol) :=
  mkProtocol (_conn_lost_deferred s) (conn s) (_stream_id_generator s) (streams s)
    (_pending_request_stream_pool s) (_active_streams s) (_settings_acknowledged s)
    l (metadata s) (transport s) (timeOut s) (objects s) (calls s).

Definition set_metadata (m : Metadata) (s : H2ClientProtocol) :=
  mkProtocol (_conn_lost_deferred s) (conn s) (_stream_id_generator s) (streams s)
    (_pending_request_stream_pool s) (_active_streams s) (_settings_acknowledged s)
    (_conn_lost_errors s) m (transport s) (timeOut s) (objects s) (calls s).

Definition set_transport (tr : Transport.t) (s : H2ClientProtocol) :=
  mkProtocol (_conn_lost_deferred s) (conn s) (_stream_id_generator s) (streams s)
    (_pending_request_stream_pool s) (_active_streams s) (_settings_acknowledged s)
    (_conn_lost_errors s) (metadata s) tr (timeOut s) (objects s) (calls s).

Definition set_timeOut (t : option Z) (s : H2ClientProtocol) :=
  mkProtocol (_conn_lost_deferred s) (conn s) (_stream_id_generator s) (streams s)
    (_pending_request_stream_pool s) (_active_streams s) (_settings_acknowledged s)
    (_conn_lost_errors s) (metadata s) (transport s) t (objects s) (calls s).

Definition set_objects (h : list Stream.t) (s : H2ClientProtocol) :=
  mkProtocol (_conn_lost_deferred s) (conn s) (_stream_id_generator s) (streams s)
    (_pending_request_stream_pool s) (_active_streams s) (_settings_acknowledged s)
    (_conn_lost_errors s) (metadata s) (transport s) (timeOut s) h (calls s).

Definition set_calls (l : list StreamCall) (s : H2ClientProtocol) :=
  mkProtocol (_conn_lost_deferred s) (conn s) (_stream_id_generator s) (streams s)
    (_pending_request_stream_pool s) (_active_streams s) (_settings_acknowledged s)
    (_conn_lost_errors s) (metadata s) (transport s) (timeOut s) (objects s) l.

(** ** The monad of methods *)

Inductive Result (A : Type) : Type :=
| Return (a : A)
| Raise (e : Exception).
Arguments Return {A} a.
Arguments Raise {A} e.

Definition M (A : Type) : Type := H2ClientProtocol -> Result A * H2ClientProtocol.

Definition ret {A} (a : A) : M A := fun s => (Return a, s).

Definition bind {A B} (m : M A) (k : A -> M B) : M B :=
  fun s =>
    match m s with
    | (Return a, s1) => k a s1
    | (Raise e, s1) => (Raise e, s1)
    end.

Definition raise {A} (e : Exception) : M A := fun s => (Raise e, s).

Definition gets {A} (f : H2ClientProtocol -> A) : M A := fun s => (Return (f s), s).

Definition modify (f : H2ClientProtocol -> H2ClientProtocol) : M unit :=
  fun s => (Return tt, f s).

Declare Scope py_scope.
Delimit Scope py_scope with py.
Notation "x <- m ;; k" := (bind m (fun x => k))
  (at level 100, m at next level, right associativity) : py_scope.
Notation "m ;; k" := (bind m (fun _ => k))
  (at level 100, right associativity) : py_scope.
Local Open Scope py_scope.

(** [for x in l: body(x)] *)
Fixpoint for_each {A} (l : list A) (body : A -> M unit) : M unit :=
  match l with
  | [] => ret tt
  | x :: l' => body x ;; for_each l' body
  end.

(** [finally: final], entered with the outcome [r] of what came before:
    the outcome stands unless [final] itself raises. *)
Definition run_finally (final : M unit) (r : Result unit * H2ClientProtocol)
    : Result unit * H2ClientProtocol :=
  match r with
  | (Return _, s1) => final s1
  | (Raise e, s1) =>
      match final s1 with
      | (Return _, s2) => (Raise e, s2)
      | (Raise e', s2) => (Raise e', s2)
      end
  end.

(** [try: body / except <the classes handler accepts>: ... / finally: final] *)
Definition try_except_finally (body : M unit)
    (handler : Exception -> option (M unit)) (final : M unit) : M unit :=
  fun s =>
    match body s with
    | (Return _, s1) => run_finally final (Return tt, s1)
    | (Raise e, s1) =>
        match handler e with
        | Some h => run_finally final (h s1)
        | None => run_finally final (Raise e, s1)
        end
    end.

(** A method keeps a view [V] of the state when no run of it changes
    [V], whether it returns or raises. *)
Definition keeps {X A : Type} (V : H2ClientProtocol -> X) (m : M A) : Prop :=
  forall s, V (snd (m s)) = V s.

(** ** Calls on collaborators *)

(** [TimeoutMixin.setTimeout(period)] *)
Definition setTimeout (period : option Z) : M unit := modify (set_timeOut period).

(** [TimeoutMixin.resetTimeout()] restarts the countdown; the clock is not
    part of the state. *)
Definition resetTimeout : M unit := ret tt.

Definition conn_close_connection (code : ErrorCodes) : M unit :=
  modify (fun s => set_conn (H2Connection.close_connection code (conn s)) s).

Definition conn_data_to_send : M (list Frame) :=
  fun s => let (data, c) := H2Connection.data_to_send (conn s) in (Return data, set_conn c s).

Definition transport_write (data : list Frame) : M unit :=
  modify (fun s => set_transport (Transport.write data (transport s)) s).

Definition transport_loseConnection : M unit :=
  modify (fun s => set_transport (Transport.loseConnection (transport s)) s).

(** [self._conn_lost_deferred.callback(errors)] *)
Definition deferred_callback (d : Deferred.t) (errors : list ConnLostError) : M unit :=
  match Deferred.callback errors d with
  | Some d' => modify (set_conn_lost_deferred (Some d'))
  | None => raise AlreadyCalledError
  end.

(** *** Stream objects in the store *)

Definition log_call (c : StreamCall) : M unit :=
  modify (fun s => set_calls (calls s ++ [c]) s).

Definition update_stream (f : Stream.t -> Stream.t) (stream : Ref) : M unit :=
  modify (fun s => set_objects (alter f stream (objects s)) s).

(** [Stream(stream_id=..., request=..., protocol=self)] *)
Definition new_stream_object (id : Z) (r : Request) : M Ref :=
  fun s => (Return (length (objects s)), set_objects (objects s ++ [Stream.new id r]) s).

(** [stream.stream_id] and [stream.request_sent] *)
Definition stream_stream_id (stream : Ref) : M Z :=
  gets (fun s => from_option Stream.stream_id 0 (objects s !! stream)).

Definition stream_request_sent (stream : Ref) : M bool :=
  gets (fun s => from_option Stream.request_sent false (objects s !! stream)).

(** Modelled from the spec: [Stream.initiate_request] instructs the codec
    to open the exchange and submit the request, and sets [request_sent]. *)
Definition stream_initiate_request (stream : Ref) : M unit :=
  log_call (Call_initiate_request stream) ;;
  o <- gets (fun s => objects s !! stream) ;;
  match o with
  | Some st =>
      modify (fun s => set_conn (H2Connection.enqueue
                (RequestFrames (Stream.stream_id st) (Stream.request st)) (conn s)) s)
  | None => ret tt
  end ;;
  update_stream Stream.initiate_request stream.

(** Modelled from the spec: [Stream.receive_data], [Stream.receive_headers]
    and [Stream.receive_window_update] accumulate partial response state. *)
Definition stream_receive_data (stream : Ref) (data : bytes) (fcl : Z) : M unit :=
  log_call (Call_receive_data stream data fcl) ;;
  update_stream (Stream.receive_data data) stream.

Definition stream_receive_headers (stream : Ref) (h : Headers) : M unit :=
  log_call (Call_receive_headers stream h) ;;
  update_stream (Stream.receive_headers h) stream.

Definition stream_receive_window_update (stream : Ref) : M unit :=
  log_call (Call_receive_window_update stream).

(** Modelled from the spec: [Stream.close(reason, errors, from_protocol)]. *)
Definition stream_close (stream : Ref) (reason : StreamCloseReason)
    (errors : list ConnLostError) (from_protocol : bool) : M unit :=
  log_call (Call_close stream reason errors from_protocol) ;;
  update_stream (Stream.close reason errors) stream.

(** [self.streams[stream_id]]: a missing key raises [KeyError]. *)
Definition streams_getitem (stream_id : Z) : M Ref :=
  d <- gets streams ;;
  match dict_get stream_id d with
  | Some stream => ret stream
  | None => raise (KeyError stream_id)
  end.

(** [self._pending_request_stream_pool.popleft()] *)
Definition pool_popleft : M Ref :=
  q <- gets _pending_request_stream_pool ;;
  match q with
  | stream :: q' => modify (set_pending_request_stream_pool q') ;; ret stream
  | [] => raise (OtherError "IndexError"%string)
  end.

(** ** The methods of [H2ClientProtocol] *)

Definition h2_connected (s : H2ClientProtocol) : bool :=
  Transport.connected (transport s) && _settings_acknowledged s.

Definition allowed_max_concurrent_streams (s : H2ClientProtocol) : Z :=
  Z.min (H2Connection.local_max_concurrent_streams (conn s))
        (H2Connection.remote_max_concurrent_streams (conn s)).

(** The condition of the loop of [_send_pending_requests]. *)
Definition pending_condition (s : H2ClientProtocol) : bool :=
  match _pending_request_stream_pool s with [] => false | _ :: _ => true end
  && (_active_streams s <? allowed_max_concurrent_streams s)
  && h2_connected s.

(** The body of the loop of [_send_pending_requests]. *)
Definition pending_body : M unit :=
  modify (fun s => set_active_streams (_active_streams s + 1) s) ;;
  stream <- pool_popleft ;;
  stream_initiate_request stream.

(** [while cond: body], run for at most [fuel] iterations. *)
Fixpoint while_loop (fuel : nat) (cond : H2ClientProtocol -> bool) (body : M unit) : M unit :=
  match fuel with
  | O => ret tt
  | S fuel' =>
      c <- gets cond ;;
      if c then body ;; while_loop fuel' cond body else ret tt
  end.

(** Every iteration pops one stream from the pool, so the length of the
    pool bounds the number of iterations. *)
Definition _send_pending_requests : M unit :=
  n <- gets (fun s => length (_pending_request_stream_pool s)) ;;
  while_loop n pending_condition pending_body.

Definition pop_stream (stream_id : Z) : M Ref :=
  d <- gets streams ;;
  match dict_pop stream_id d with
  | None => raise (KeyError stream_id)
  | Some (stream, d') =>
      modify (set_streams d') ;;
      modify (fun s => set_active_streams (_active_streams s - 1) s) ;;
      _send_pending_requests ;;
      ret stream
  end.

Definition _new_stream (r : Request) : M Ref :=
  g <- gets _stream_id_generator ;;
  let (id, g') := Count.next g in
  modify (set_stream_id_generator g') ;;
  stream <- new_stream_object id r ;;
  key <- stream_stream_id stream ;;
  modify (fun s => set_streams (dict_set key stream (streams s)) s) ;;
  ret stream.

Definition _write_to_transport : M unit :=
  resetTimeout ;;
  data <- conn_data_to_send ;;
  transport_write data.

(** [request] returns the deferred of the stream it created: the
    reference to that stream stands for it. *)
Definition request (o : PyObject) : M Ref :=
  match o with
  | PyOther qualname =>
      raise (TypeError (String.append "Expected scrapy.http.Request, received " qualname))
  | PyRequest r =>
      stream <- _new_stream r ;;
      modify (fun s => set_pending_request_stream_pool
                         (_pending_request_stream_pool s ++ [stream]) s) ;;
      _send_pending_requests ;;
      ret stream
  end.

Definition _lose_connection_with_error (errors : list ConnLostError) : M unit :=
  modify (fun s => set_conn_lost_errors (_conn_lost_errors s ++ errors) s) ;;
  transport_loseConnection.

Definition timeout_message : string :=
  "Connection was IDLE for more than 240s"%string.

Definition timeoutConnection : M unit :=
  out <- gets (fun s => H2Connection.open_outbound_streams (conn s)) ;;
  inb <- gets (fun s => H2Connection.open_inbound_streams (conn s)) ;;
  act <- gets _active_streams ;;
  let error_code :=
    if (0 <? out) || (0 <? inb) || (0 <? act) then PROTOCOL_ERROR else NO_ERROR in
  conn_close_connection error_code ;;
  _write_to_transport ;;
  _lose_connection_with_error [TimeoutError timeout_message].

(** The body of the loop of [connectionLost] over [self.streams.values()]. *)
Definition connectionLost_body (stream : Ref) : M unit :=
  sent <- stream_request_sent stream ;;
  if sent
  then errors <- gets _conn_lost_errors ;;
       stream_close stream CONNECTION_LOST errors true
  else stream_close stream INACTIVE [] true.

Definition connectionLost (reason : Failure) : M unit :=
  setTimeout None ;;
  (if negb (check_connectionDone reason)
   then modify (fun s => set_conn_lost_errors (_conn_lost_errors s ++ [LostReason reason]) s)
   else ret tt) ;;
  d <- gets _conn_lost_deferred ;;
  match d with
  | Some d => errors <- gets _conn_lost_errors ;; deferred_callback d errors
  | None => ret tt
  end ;;
  values <- gets (fun s => dict_values (streams s)) ;;
  for_each values connectionLost_body ;;
  modify (fun s => set_active_streams (_active_streams s - Z.of_nat (length (streams s))) s) ;;
  modify (set_streams []) ;;
  modify (set_pending_request_stream_pool []) ;;
  conn_close_connection NO_ERROR.

(** *** Event handlers *)

Definition connection_terminated (event : Event) : M unit :=
  ip <- gets (fun s => ip_address (metadata s)) ;;
  _lose_connection_with_error [RemoteTerminatedConnection ip event].

Definition data_received (stream_id : Z) (data : bytes) (fcl : Z) : M unit :=
  stream <- streams_getitem stream_id ;;
  stream_receive_data stream data fcl.

Definition response_received (stream_id : Z) (h : Headers) : M unit :=
  stream <- streams_getitem stream_id ;;
  stream_receive_headers stream h.

Definition settings_acknowledged : M unit :=
  modify (set_settings_acknowledged true) ;;
  _send_pending_requests ;;
  modify (fun s =>
    set_metadata
      (mkMetadata (Some (mkCertificate (Transport.peer_certificate (transport s))))
         (ip_address (metadata s)) (uri (metadata s))
         (default_download_maxsize (metadata s))
         (default_download_warnsize (metadata s))) s).

Definition stream_ended (stream_id : Z) : M unit :=
  stream <- pop_stream stream_id ;;
  stream_close stream ENDED [] true.

Definition stream_reset (stream_id : Z) : M unit :=
  stream <- pop_stream stream_id ;;
  stream_close stream RESET [] true.

Definition window_updated (stream_id : Z) : M unit :=
  if negb (stream_id =? 0)
  then stream <- streams_getitem stream_id ;;
       stream_receive_window_update stream
  else values <- gets (fun s => dict_values (streams s)) ;;
       for_each values stream_receive_window_update.

Definition handle_event (event : Event) : M unit :=
  match event with
  | ConnectionTerminated _ _ => connection_terminated event
  | DataReceived id data fcl => data_received id data fcl
  | ResponseReceived id h => response_received id h
  | StreamEnded id => stream_ended id
  | StreamReset id => stream_reset id
  | WindowUpdated id => window_updated id
  | SettingsAcknowledged => settings_acknowledged
  | UnknownFrameReceived _ => ret tt
  | OtherEvent _ => ret tt
  end.

Definition _handle_events (events : list Event) : M unit :=
  for_each events handle_event.

(** *** Receiving bytes

    [H2Connection.receive_data] is the codec's parser: whatever it is, it
    maps the bytes and the codec's state to the new state of the codec
    and either a list of events or an exception. *)
Section Receive.
Variable receive_data : bytes -> H2Connection.t -> Result (list Event) * H2Connection.t.

Definition conn_receive_data (data : bytes) : M (list Event) :=
  fun s => let (r, c) := receive_data data (conn s) in (r, set_conn c s).

Definition dataReceived (data : bytes) : M unit :=
  resetTimeout ;;
  try_except_finally
    (events <- conn_receive_data data ;;
     _handle_events events)
    (fun e =>
       match e with
       | ProtocolError _ => Some (_lose_connection_with_error [CaughtError e])
       | _ => None
       end)
    _write_to_transport.

(** What can happen to a connection, one step at a time. *)
Inductive Op : Type :=
| OpRequest (o : PyObject)
| OpDataReceived (data : bytes)
| OpTimeoutConnection
| OpConnectionLost (reason : Failure)
| OpTransportConnected (b : bool).

Definition run_op (op : Op) : M unit :=
  match op with
  | OpRequest o => request o ;; ret tt
  | OpDataReceived data => dataReceived data
  | OpTimeoutConnection => timeoutConnection
  | OpConnectionLost reason => connectionLost reason
  | OpTransportConnected b =>
      modify (fun s => set_transport
        (Transport.mk b (Transport.disconnecting (transport s))
           (Transport.written (transport s)) (Transport.peer_certificate (transport s))) s)
  end.

(** The state after a sequence of steps; a step that raises leaves the
    mutations it made, and the next step runs on them. *)
Fixpoint run_ops (ops : list Op) (s : H2ClientProtocol) : H2ClientProtocol :=
  match ops with
  | [] => s
  | op :: ops' => run_ops ops' (snd (run_op op s))
  end.
End Receive.

(** ** What is observed of a state *)

(** [stream.request_sent], read through a reference. *)
Definition sent (s : H2ClientProtocol) (stream : Ref) : bool :=
  from_option Stream.request_sent false (objects s !! stream).

(** The streams of the registry whose request has been sent: the streams
    that are admitted and still open. *)
Definition admitted (s : H2ClientProtocol) : list Ref :=
  filter (fun stream => sent s stream = true) (dict_values (streams s)).

(** The streams of the registry still waiting to send their request. *)
Definition unsent (s : H2ClientProtocol) : list Ref :=
  filter (fun stream => sent s stream = false) (dict_values (streams s)).

(** The registry is well formed: its references are distinct, point to
    objects of the store, and none of these streams is closed. *)
Definition stream_open (st : Stream.t) : Prop :=
  Stream.close_reason st = None /\ Stream.completion st = None.

Definition registry_ok (s : H2ClientProtocol) : Prop :=
  NoDup (dict_values (streams s)) /\
  Forall (fun stream => exists st, objects s !! stream = Some st /\ stream_open st)
         (dict_values (streams s)).

(** The connection-lost deferred, if there is one, has not fired yet. *)
Definition deferred_pending (s : H2ClientProtocol) : Prop :=
  match _conn_lost_deferred s with
  | Some d => Deferred.called d = false
  | None => True
  end.

(** The stream id an event names, if it names one. *)
Definition event_stream_id (event : Event) : option Z :=
  match event with
  | DataReceived id _ _ | ResponseReceived id _ | StreamEnded id | StreamReset id
  | WindowUpdated id => Some id
  | _ => None
  end.

(** The completion of the stream behind a reference. *)
Definition completion_of (s : H2ClientProtocol) (stream : Ref) : option Completion :=
  objects s !! stream ≫= Stream.completion.

(** How many streams one run of [_send_pending_requests] admits: none
    while the connection is not ready, otherwise as many as wait, up to
    the free capacity. *)
Definition admission_count (s : H2ClientProtocol) : nat :=
  if h2_connected s
  then Nat.min (length (_pending_request_stream_pool s))
               (Z.to_nat (allowed_max_concurrent_streams s - _active_streams s))
  else 0%nat.

(** What [connectionLost] does to one stream of the registry. *)
Definition teardown_close (errors : list ConnLostError) (st : Stream.t) : Stream.t :=
  if Stream.request_sent st
  then Stream.close CONNECTION_LOST errors st
  else Stream.close INACTIVE [] st.

Definition teardown_call (errors : list ConnLostError) (h : list Stream.t) (stream : Ref)
    : StreamCall :=
  if from_option Stream.request_sent false (h !! stream)
  then Call_close stream CONNECTION_LOST errors true
  else Call_close stream INACTIVE [] true.

(** The causes [connectionLost] ends up with. *)
Definition lost_errors (reason : Failure) (s : H2ClientProtocol) : list ConnLostError :=
  _conn_lost_errors s ++ (if check_connectionDone reason then [] else [LostReason reason]).

(** ** A connection for the examples *)

(** A codec that reads the first byte as a frame type: 0 is a protocol
    violation (answered with a GOAWAY), 1 a settings acknowledgement,
    2 to 5 end, reset, feed data to or update the window of the stream
    whose id is the second byte. *)
Definition example_codec (data : bytes) (c : H2Connection.t)
    : Result (list Event) * H2Connection.t :=
  let id b := Z.of_N (Byte.to_N b) in
  match data with
  | x00 :: _ =>
      (Raise (ProtocolError "invalid frame"%string),
       H2Connection.enqueue (GoAway PROTOCOL_ERROR) c)
  | x01 :: _ => (Return [SettingsAcknowledged], c)
  | x02 :: b :: _ => (Return [StreamEnded (id b)], c)
  | x03 :: b :: _ => (Return [StreamReset (id b)], c)
  | x04 :: b :: payload => (Return [DataReceived (id b) payload (Z.of_nat (length payload))], c)
  | x05 :: b :: _ => (Return [WindowUpdated (id b)], c)
  | _ => (Return [], c)
  end.

Definition example_conn : H2Connection.t := H2Connection.mk 2 100 0 0 [].
Definition example_transport : Transport.t := Transport.mk true false [] None.
Definition example_request : Request := mkRequest [("accept", "*/*")%string] [].

(** A fresh protocol without and with a connection-lost deferred. *)
Definition example_protocol : H2ClientProtocol :=
  init "https://example.com" 0 0 None example_conn example_transport.

Definition example_protocol_with_deferred : H2ClientProtocol :=
  init "https://example.com" 0 0 (Some (Deferred.mk false [])) example_conn example_transport.

(** The transport closed cleanly, and the transport failed. *)
Definition clean_close : Failure := mkFailure "ConnectionDone" true.
Definition broken_pipe : Failure := mkFailure "ConnectionLost" false.

(** ** Stream ids *)

(** The ids of the streams created so far, in creation order, with the
    state of the generator. *)
Definition ids_view (s : H2ClientProtocol) : Count.t * list Z :=
  (_stream_id_generator s, map Stream.stream_id (objects s)).

(** 1, 3, 5, ...: the first [n] odd numbers. *)
Definition odd_ids (n : nat) : list Z := map (fun k => 2 * Z.of_nat k - 1) (seq 1 n).

(** A step that submits a request. *)
Definition is_submission (op : Op) : bool :=
  match op with
  | OpRequest (PyRequest _) => true
  | _ => false
  end.

(** Three requests, of which the acknowledged settings admit two. *)
Definition example_busy_protocol : H2ClientProtocol :=
  Eval vm_compute in
  run_ops example_codec
    [OpRequest (PyRequest example_request); OpRequest (PyRequest example_request);
     OpRequest (PyRequest example_request); OpDataReceived [x01]]
    example_protocol_with_deferred.

(** ** Invariants *)

(** A method preserves a property [P] of the state when every run of it
    from a state with [P], whether it returns or raises, ends in a state
    with [P]. *)
Definition preserves {A : Type} (P : H2ClientProtocol -> Prop) (m : M A) : Prop :=
  forall s, P s -> P (snd (m s)).

(** What [registry_ok] depends on: the registry, and for every stream
    object whether it is closed and whether its completion is fulfilled. *)
Definition registry_view (s : H2ClientProtocol)
    : list (Z * Ref) * list (option StreamCloseReason * option Completion) :=
  (streams s, map (fun st => (Stream.close_reason st, Stream.completion st)) (objects s)).

(** ** What the log of calls tells *)

(** The streams [initiate_request] was called on, in the order of the calls. *)
Definition initiated (s : H2ClientProtocol) : list Ref :=
  omap (fun c => match c with Call_initiate_request stream => Some stream | _ => None end)
       (calls s).

(** The streams [close] was called on, in the order of the calls. *)
Definition closed (s : H2ClientProtocol) : list Ref :=
  omap (fun c => match c with Call_close stream _ _ _ => Some stream | _ => None end)
       (calls s).

(** Everything a stream object holds except the flag [request_sent]. *)
Definition stream_data (st : Stream.t)
    : Z * Request * option Headers * list bytes * option StreamCloseReason * option Completion :=
  (Stream.stream_id st, Stream.request st, Stream.response_headers st,
   Stream.response_body st, Stream.close_reason st, Stream.completion st).

(** The line: the streams initiated so far, in the order of the calls,
    followed by the streams waiting in the pool. *)
Definition line (s : H2ClientProtocol) : list Ref :=
  initiated s ++ _pending_request_stream_pool s.

Definition fifo_view (s : H2ClientProtocol) : list Ref * nat :=
  (line s, length (objects s)).

(** The line is strictly increasing and made of streams that exist. *)
Definition fifo_ok (s : H2ClientProtocol) : Prop :=
  StronglySorted lt (line s) /\ Forall (fun stream => (stream < length (objects s))%nat) (line s).

(** A step that is not the loss of the connection. *)
Definition keeps_connection (op : Op) : bool :=
  match op with
  | OpConnectionLost _ => false
  | _ => true
  end.

(** What the bookkeeping of closed streams depends on. *)
Definition close_view (s : H2ClientProtocol) : list (Z * Ref) * list Ref * nat :=
  (streams s, closed s, length (objects s)).

(** [close] was called at most once on each stream, on existing streams
    only, and the registry holds distinct existing streams on which
    [close] was never called. *)
Definition closed_ok (s : H2ClientProtocol) : Prop :=
  NoDup (closed s) /\
  Forall (fun stream => (stream < length (objects s))%nat) (closed s) /\
  NoDup (dict_values (streams s)) /\
  Forall (fun stream => (stream < length (objects s))%nat /\ stream ∉ closed s)
         (dict_values (streams s)).

(** ** Failures on their way to the callers *)

(** The connection failed in state [s] with [causes], which left the
    protocol in [s1]; the transport then reports the loss with [reason].
    The teardown returns; the deferred and every stream whose request was
    sent get all the causes, in the order in which they occurred; the
    streams that never sent their request fail as inactive. *)
Definition teardown_delivers (s s1 : H2ClientProtocol) (causes : list ConnLostError)
    (reason : Failure) : Prop :=
  let s2 := snd (connectionLost reason s1) in
  let all := _conn_lost_errors s ++ causes
             ++ (if check_connectionDone reason then [] else [LostReason reason]) in
  fst (connectionLost reason s1) = Return tt /\
  _conn_lost_errors s2 = all /\
  _conn_lost_deferred s2 = option_map (fun _ => Deferred.mk true all) (_conn_lost_deferred s) /\
  (forall stream, stream ∈ admitted s ->
     completion_of s2 stream = Some (Failed CONNECTION_LOST all)) /\
  (forall stream, stream ∈ unsent s ->
     completion_of s2 stream = Some (Failed INACTIVE [])).

(** ** The counter of active streams, where it is right *)

(** What the counter's bookkeeping depends on. *)
Definition counter_view (s : H2ClientProtocol)
    : list (Z * Ref) * list Ref * Z * list bool * Count.t :=
  (streams s, _pending_request_stream_pool s, _active_streams s,
   map Stream.request_sent (objects s), _stream_id_generator s).

(** The counter is the number of registered streams whose request was
    sent; the pool holds distinct registered streams that did not send
    theirs; the registry holds distinct existing streams under keys the
    generator has already passed. *)
Definition counter_ok (s : H2ClientProtocol) : Prop :=
  NoDup (dict_values (streams s)) /\
  NoDup (_pending_request_stream_pool s) /\
  Forall (fun stream => stream ∈ dict_values (streams s) /\ sent s stream = false)
         (_pending_request_stream_pool s) /\
  Forall (fun stream => (stream < length (objects s))%nat) (dict_values (streams s)) /\
  Forall (fun k => k < Count.next_value (_stream_id_generator s)) (dict_keys (streams s)) /\
  0 < Count.step (_stream_id_generator s) /\
  _active_streams s = Z.of_nat (length (admitted s)).

(** The stream id of an event that ends a stream. *)
Definition ended_stream_id (event : Event) : option Z :=
  match event with
  | StreamEnded id | StreamReset id => Some id
  | _ => None
  end.

(** ** The registry and the ids *)

Definition key_view (s : H2ClientProtocol) : list (Z * Ref) * list Z :=
  (streams s, map Stream.stream_id (objects s)).

(** A stream id is registered at most once, and under its id the
    registry holds the stream object that carries this id. *)
Definition keys_ok (s : H2ClientProtocol) : Prop :=
  NoDup (dict_keys (streams s)) /\
  Forall (fun entry => map Stream.stream_id (objects s) !! snd entry = Some (fst entry))
         (streams s).

(** ** The limit on concurrent streams *)




(** ** Delivering payload events *)

(** The call on a [Stream] object that delivers a payload event: the
    stream is the one registered under the id the event names. *)
Definition delivery (s : H2ClientProtocol) (event : Event) : option StreamCall :=
  match event with
  | DataReceived id data fcl =>
      (fun stream => Call_receive_data stream data fcl) <$> dict_get id (streams s)
  | ResponseReceived id h =>
      (fun stream => Call_receive_headers stream h) <$> dict_get id (streams s)
  | WindowUpdated id =>
      if id =? 0 then None
      else Call_receive_window_update <$> dict_get id (streams s)
  | _ => None
  end.

(** * Properties *)

(** ** Reasoning about methods *)

Lemma bind_return {A B} (m : M A) (k : A -> M B) s a s1 :
  m s = (Return a, s1) -> bind m k s = k a s1.
Proof. intros E. unfold bind. now rewrite E. Qed.

Lemma bind_raise {A B} (m : M A) (k : A -> M B) s e s1 :
  m s = (Raise e, s1) -> bind m k s = (Raise e, s1).
Proof. intros E. unfold bind. now rewrite E. Qed.

Lemma snd_bind_ret {A} (m : M A) (s : H2ClientProtocol) :
  snd ((m ;; ret tt) s) = snd (m s).
Proof. unfold bind. now destruct (m s) as [[a|e] s1]. Qed.

Section Keeps.
Context {X : Type} (V : H2ClientProtocol -> X).

Lemma keeps_ret {A} (a : A) : keeps V (ret a).
Proof. now intros s. Qed.

Lemma keeps_raise {A} e : keeps V (@raise A e).
Proof. now intros s. Qed.

Lemma keeps_gets {A} (f : H2ClientProtocol -> A) : keeps V (gets f).
Proof. now intros s. Qed.

Lemma keeps_modify f : (forall s, V (f s) = V s) -> keeps V (modify f).
Proof. intros H s. apply H. Qed.

Lemma keeps_bind {A B} (m : M A) (k : A -> M B) :
  keeps V m -> (forall a, keeps V (k a)) -> keeps V (bind m k).
Proof.
  intros Hm Hk s. unfold bind. specialize (Hm s).
  destruct (m s) as [[a|e] s1]; simpl in *; [|assumption].
  now rewrite Hk.
Qed.

Lemma keeps_for_each {A} (l : list A) (body : A -> M unit) :
  (forall x, keeps V (body x)) -> keeps V (for_each l body).
Proof.
  intros Hb. induction l as [|x l IH]; simpl.
  - apply keeps_ret.
  - apply keeps_bind; auto.
Qed.

Lemma keeps_while fuel cond body : keeps V body -> keeps V (while_loop fuel cond body).
Proof.
  intros Hb. induction fuel as [|n IH]; simpl.
  - apply keeps_ret.
  - apply keeps_bind; [apply keeps_gets|].
    intros [|]; [|apply keeps_ret].
    apply keeps_bind; auto.
Qed.

Lemma keeps_finally final r s :
  keeps V final -> V (snd r) = V s -> V (snd (run_finally final r)) = V s.
Proof.
  intros Hf E. destruct r as [[[]|e] s1]; simpl in *.
  - now rewrite Hf.
  - specialize (Hf s1). destruct (final s1) as [[?|?] s2]; simpl in *; congruence.
Qed.

Lemma keeps_try body handler final :
  keeps V body -> (forall e h, handler e = Some h -> keeps V h) -> keeps V final ->
  keeps V (try_except_finally body handler final).
Proof.
  intros Hb Hh Hf s. unfold try_except_finally.
  specialize (Hb s). destruct (body s) as [[[]|e] s1]; simpl in Hb.
  - now apply keeps_finally.
  - destruct (handler e) as [h|] eqn:Eh.
    + apply keeps_finally; [assumption|]. rewrite (Hh e h Eh). assumption.
    + now apply keeps_finally.
Qed.
End Keeps.

(** ** Submitting something that is not a request *)

(** C9: [request] called with an object that is not a [Request] raises
    [TypeError] at once and leaves the protocol exactly as it was: no
    stream object is created, the id generator is not advanced, and
    neither the registry nor the pending pool grows. *)
Theorem request_rejects_non_request (qualname : string) (s : H2ClientProtocol) :
  let s' := snd (request (PyOther qualname) s) in
  fst (request (PyOther qualname) s)
  = Raise (TypeError (String.append "Expected scrapy.http.Request, received " qualname)) /\
  s' = s /\
  objects s' = objects s /\
  _stream_id_generator s' = _stream_id_generator s /\
  streams s' = streams s /\
  _pending_request_stream_pool s' = _pending_request_stream_pool s.
Proof. intros s'. subst s'. unfold request, raise. simpl. repeat split. Qed.

(** ** Idle timeout *)

(** C6: on idle timeout the GOAWAY code is [NO_ERROR] exactly when the
    codec has no open outbound stream, no open inbound stream and the
    protocol counts no active stream, and [PROTOCOL_ERROR] otherwise.  The
    codec is told to close the connection with that code, what the codec
    has buffered (ending with that GOAWAY) is written to the transport,
    the timeout is appended to the accumulated causes and the transport
    is asked to drop the connection; registry, pool and counter are left
    for [connectionLost]. *)
Theorem timeoutConnection_spec (s : H2ClientProtocol) :
  exists code : ErrorCodes,
    let s' := snd (timeoutConnection s) in
    fst (timeoutConnection s) = Return tt /\
    (code = NO_ERROR <->
       H2Connection.open_outbound_streams (conn s) <= 0 /\
       H2Connection.open_inbound_streams (conn s) <= 0 /\
       _active_streams s <= 0) /\
    (code = PROTOCOL_ERROR <->
       0 < H2Connection.open_outbound_streams (conn s) \/
       0 < H2Connection.open_inbound_streams (conn s) \/
       0 < _active_streams s) /\
    Transport.written (transport s')
      = Transport.written (transport s) ++ [H2Connection.outbound (conn s) ++ [GoAway code]] /\
    H2Connection.outbound (conn s') = [] /\
    _conn_lost_errors s' = _conn_lost_errors s ++ [TimeoutError timeout_message] /\
    Transport.disconnecting (transport s') = true /\
    streams s' = streams s /\
    _pending_request_stream_pool s' = _pending_request_stream_pool s /\
    _active_streams s' = _active_streams s /\
    objects s' = objects s.
Proof.
  unfold timeoutConnection, bind, gets; simpl.
  destruct (0 <? H2Connection.open_outbound_streams (conn s)) eqn:Eo;
  destruct (0 <? H2Connection.open_inbound_streams (conn s)) eqn:Ei;
  destruct (0 <? _active_streams s) eqn:Ea; simpl;
  rewrite ?Z.ltb_lt, ?Z.ltb_ge in *;
  first [ solve [ exists PROTOCOL_ERROR;
                  repeat split; try reflexivity; try lia; try discriminate;
                  intuition (try lia; try discriminate) ]
        | solve [ exists NO_ERROR;
                  repeat split; try reflexivity; try lia; try discriminate;
                  intuition (try lia; try discriminate) ] ].
Qed.

(** ** Admission *)

(** One iteration of the loop of [_send_pending_requests], when a stream
    is waiting. *)
Lemma pending_body_run (s : H2ClientProtocol) stream q :
  _pending_request_stream_pool s = stream :: q ->
  exists s1, pending_body s = (Return tt, s1) /\
    _pending_request_stream_pool s1 = q /\
    _active_streams s1 = _active_streams s + 1 /\
    calls s1 = calls s ++ [Call_initiate_request stream] /\
    objects s1 = alter Stream.initiate_request stream (objects s) /\
    allowed_max_concurrent_streams s1 = allowed_max_concurrent_streams s /\
    h2_connected s1 = h2_connected s /\
    streams s1 = streams s.
Proof.
  intros Hq. unfold pending_body, bind, modify, pool_popleft, gets, bind. simpl.
  rewrite Hq. simpl. unfold stream_initiate_request, bind, log_call, modify, gets. simpl.
  destruct (objects s !! stream); simpl; eexists; repeat split.
Qed.

Lemma pending_condition_true (s : H2ClientProtocol) :
  pending_condition s = true ->
  exists stream q,
    _pending_request_stream_pool s = stream :: q /\
    _active_streams s < allowed_max_concurrent_streams s /\
    h2_connected s = true.
Proof.
  unfold pending_condition. intros H.
  apply andb_prop in H as [H Hc]. apply andb_prop in H as [Hq Ha].
  destruct (_pending_request_stream_pool s) as [|stream q]; [discriminate|].
  exists stream, q. repeat split; [|assumption]. now apply Z.ltb_lt.
Qed.

Lemma admission_count_step (s s1 : H2ClientProtocol) stream q :
  pending_condition s = true ->
  _pending_request_stream_pool s = stream :: q ->
  _pending_request_stream_pool s1 = q ->
  _active_streams s1 = _active_streams s + 1 ->
  allowed_max_concurrent_streams s1 = allowed_max_concurrent_streams s ->
  h2_connected s1 = h2_connected s ->
  admission_count s = S (admission_count s1).
Proof.
  intros Hc Hq Hq1 Ha Hl Hh.
  apply pending_condition_true in Hc as (? & ? & _ & Hlt & Hconn).
  unfold admission_count. rewrite Hh, Hconn, Hq, Hq1, Ha, Hl. simpl length.
  replace (allowed_max_concurrent_streams s - _active_streams s)
    with (Z.succ (allowed_max_concurrent_streams s - (_active_streams s + 1))) by lia.
  rewrite Z2Nat.inj_succ by lia. reflexivity.
Qed.

Lemma admission_count_stop (s : H2ClientProtocol) :
  pending_condition s = false -> admission_count s = 0%nat.
Proof.
  unfold pending_condition, admission_count. intros H.
  destruct (h2_connected s); [|reflexivity].
  destruct (_pending_request_stream_pool s) as [|stream q]; [reflexivity|].
  simpl in H. rewrite andb_true_r in H. apply Z.ltb_ge in H.
  replace (Z.to_nat _) with 0%nat by lia. apply Nat.min_0_r.
Qed.

(** The loop with the length of the pool as fuel runs to completion. *)
Lemma while_pending_spec (n : nat) : forall s : H2ClientProtocol,
  length (_pending_request_stream_pool s) = n ->
  exists s', while_loop n pending_condition pending_body s = (Return tt, s') /\
    _pending_request_stream_pool s'
      = drop (admission_count s) (_pending_request_stream_pool s) /\
    _active_streams s' = _active_streams s + Z.of_nat (admission_count s) /\
    calls s' = calls s ++ map Call_initiate_request
                 (take (admission_count s) (_pending_request_stream_pool s)) /\
    objects s' = foldl (fun h stream => alter Stream.initiate_request stream h) (objects s)
                   (take (admission_count s) (_pending_request_stream_pool s)) /\
    allowed_max_concurrent_streams s' = allowed_max_concurrent_streams s /\
    h2_connected s' = h2_connected s /\
    streams s' = streams s /\
    pending_condition s' = false.
Proof.
  induction n as [|n IH]; intros s Hlen.
  - assert (Hc : pending_condition s = false).
    { unfold pending_condition.
      destruct (_pending_request_stream_pool s); [reflexivity|discriminate]. }
    exists s. rewrite (admission_count_stop s Hc). simpl.
    rewrite drop_0, Z.add_0_r, app_nil_r. repeat split; assumption.
  - simpl. unfold bind at 1. unfold gets at 1.
    destruct (pending_condition s) eqn:Hc.
    + destruct (pending_condition_true s Hc) as (stream & q & Hq & _ & _).
      destruct (pending_body_run s stream q Hq)
        as (s1 & Hrun & Hq1 & Ha1 & Hc1 & Ho1 & Hl1 & Hh1 & Hs1).
      unfold bind. rewrite Hrun.
      assert (Hlen1 : length (_pending_request_stream_pool s1) = n).
      { rewrite Hq1. rewrite Hq in Hlen. simpl in Hlen. lia. }
      destruct (IH s1 Hlen1) as (s' & Hw & Hq' & Ha' & Hc' & Ho' & Hl' & Hh' & Hs' & Hstop).
      exists s'. rewrite (admission_count_step s s1 stream q Hc Hq Hq1 Ha1 Hl1 Hh1).
      rewrite Hq. simpl. rewrite Hw, Hq', Ha', Hc', Ho', Hl', Hh', Hs', Hq1, Ha1, Hc1, Ho1.
      rewrite <- app_assoc. simpl.
      repeat split; try assumption; try reflexivity. lia.
    + exists s. rewrite (admission_count_stop s Hc). simpl.
      rewrite drop_0, Z.add_0_r, app_nil_r. repeat split; assumption.
Qed.

Lemma _send_pending_requests_spec (s : H2ClientProtocol) :
  exists s', _send_pending_requests s = (Return tt, s') /\
    _pending_request_stream_pool s'
      = drop (admission_count s) (_pending_request_stream_pool s) /\
    _active_streams s' = _active_streams s + Z.of_nat (admission_count s) /\
    calls s' = calls s ++ map Call_initiate_request
                 (take (admission_count s) (_pending_request_stream_pool s)) /\
    objects s' = foldl (fun h stream => alter Stream.initiate_request stream h) (objects s)
                   (take (admission_count s) (_pending_request_stream_pool s)) /\
    allowed_max_concurrent_streams s' = allowed_max_concurrent_streams s /\
    h2_connected s' = h2_connected s /\
    streams s' = streams s /\
    pending_condition s' = false.
Proof.
  unfold _send_pending_requests, bind at 1. unfold gets at 1.
  now apply while_pending_spec.
Qed.


Lemma _new_stream_run (r : Request) (s : H2ClientProtocol) :
  exists s1, _new_stream r s = (Return (length (objects s)), s1) /\
    streams s1 = dict_set (Count.next_value (_stream_id_generator s))
                   (length (objects s)) (streams s) /\
    objects s1 = objects s ++ [Stream.new (Count.next_value (_stream_id_generator s)) r].
Proof.
  unfold _new_stream, bind, gets, modify, new_stream_object, stream_stream_id, gets. simpl.
  eexists. split; [reflexivity|]. simpl. split; [|reflexivity].
  now rewrite lookup_app_r, Nat.sub_diag by lia.
Qed.



(** ** Dispatching events *)

Lemma window_update_all (l : list Ref) : forall s : H2ClientProtocol,
  for_each l stream_receive_window_update s
  = (Return tt, set_calls (calls s ++ map Call_receive_window_update l) s).
Proof.
  induction l as [|x l IH]; intros s.
  - simpl. rewrite app_nil_r. now destruct s.
  - simpl. unfold bind at 1. unfold stream_receive_window_update at 1, log_call, modify.
    rewrite IH. unfold set_calls; simpl. now rewrite <- app_assoc.
Qed.

(** C10: a [WindowUpdated] event for stream id 0 calls
    [receive_window_update] once on every stream of the registry, in the
    order of the registry, and on nothing else; for a non-zero id that is
    registered it calls it on that stream alone.  Nothing else changes. *)
Theorem window_updated_spec (stream_id : Z) (s : H2ClientProtocol) :
  (stream_id = 0 ->
   window_updated stream_id s
   = (Return tt,
      set_calls (calls s ++ map Call_receive_window_update (dict_values (streams s))) s)) /\
  (forall stream, stream_id <> 0 ->
   dict_get stream_id (streams s) = Some stream ->
   window_updated stream_id s
   = (Return tt, set_calls (calls s ++ [Call_receive_window_update stream]) s)).
Proof.
  split.
  - intros ->. unfold window_updated. simpl. unfold bind, gets.
    apply window_update_all.
  - intros stream Hne Hget. unfold window_updated.
    destruct (stream_id =? 0) eqn:E; [apply Z.eqb_eq in E; contradiction|].
    simpl. unfold bind, streams_getitem, bind, gets. rewrite Hget. reflexivity.
Qed.

(** Three streams are registered, two of them admitted: the connection
    window reaches all three, the window of stream 3 only that one. *)
Lemma window_updated_spec_witness :
  let s := run_ops example_codec
             [OpRequest (PyRequest example_request); OpRequest (PyRequest example_request);
              OpRequest (PyRequest example_request); OpDataReceived [x01]]
             example_protocol in
  dict_values (streams s) = [0; 1; 2]%nat /\
  calls (snd (window_updated 0 s))
  = calls s ++ [Call_receive_window_update 0%nat; Call_receive_window_update 1%nat;
                Call_receive_window_update 2%nat] /\
  calls (snd (window_updated 3 s)) = calls s ++ [Call_receive_window_update 1%nat].
Proof.
  intros s.
  destruct (window_updated_spec 0 s) as [H0 _].
  destruct (window_updated_spec 3 s) as [_ H3].
  rewrite (H0 eq_refl), (H3 1%nat ltac:(discriminate) eq_refl).
  repeat split.
Defined.

Lemma handle_event_unknown_id (event : Event) (id : Z) (s : H2ClientProtocol) :
  event_stream_id event = Some id ->
  event <> WindowUpdated 0 ->
  dict_get id (streams s) = None ->
  handle_event event s = (Raise (KeyError id), s).
Proof.
  intros Hid Hne Hget.
  assert (Hpop : dict_pop id (streams s) = None).
  { revert Hget. induction (streams s) as [|[k v] d IH]; simpl; [reflexivity|].
    destruct (id =? k); [discriminate|]. intros H. now rewrite (IH H). }
  destruct event; simpl in Hid; try discriminate; injection Hid as ->; simpl.
  - unfold data_received, bind, streams_getitem, bind, gets. now rewrite Hget.
  - unfold response_received, bind, streams_getitem, bind, gets. now rewrite Hget.
  - unfold stream_ended, bind, pop_stream, bind, gets. now rewrite Hpop.
  - unfold stream_reset, bind, pop_stream, bind, gets. now rewrite Hpop.
  - unfold window_updated. destruct (id =? 0) eqn:E.
    + apply Z.eqb_eq in E. subst. contradiction.
    + simpl. unfold bind, streams_getitem, bind, gets. now rewrite Hget.
Qed.

(** C2, as the code has it: an event that names a stream id missing from
    the registry ([DataReceived], [ResponseReceived], [StreamEnded],
    [StreamReset], or [WindowUpdated] with a non-zero id) raises
    [KeyError].  The handler leaves the protocol as it was, the events
    after it in the batch are not dispatched, and [dataReceived], which
    catches [ProtocolError] only, lets the error through after its final
    flush. *)
Theorem unknown_stream_id_raises_KeyError
    (event : Event) (id : Z) (rest : list Event) (s : H2ClientProtocol) :
  event_stream_id event = Some id ->
  event <> WindowUpdated 0 ->
  dict_get id (streams s) = None ->
  handle_event event s = (Raise (KeyError id), s) /\
  _handle_events (event :: rest) s = (Raise (KeyError id), s) /\
  forall receive_data data c,
    receive_data data (conn s) = (Return (event :: rest), c) ->
    dataReceived receive_data data s
    = (Raise (KeyError id), snd (_write_to_transport (set_conn c s))).
Proof.
  intros Hid Hne Hget.
  pose proof (handle_event_unknown_id event id s Hid Hne Hget) as H.
  split; [assumption|]. split.
  - unfold _handle_events. simpl. unfold bind. now rewrite H.
  - intros receive_data data c Hrecv.
    pose proof (handle_event_unknown_id event id (set_conn c s) Hid Hne Hget) as H'.
    unfold dataReceived, bind at 1. unfold resetTimeout, ret.
    unfold try_except_finally, bind at 1. unfold conn_receive_data at 1. rewrite Hrecv.
    unfold _handle_events. simpl for_each. unfold bind at 1. rewrite H'.
    reflexivity.
Qed.

Lemma unknown_stream_id_raises_KeyError_witness :
  handle_event (StreamEnded 7) example_protocol = (Raise (KeyError 7), example_protocol) /\
  _handle_events [StreamEnded 7; SettingsAcknowledged] example_protocol
  = (Raise (KeyError 7), example_protocol).
Proof.
  destruct (unknown_stream_id_raises_KeyError (StreamEnded 7) 7 [SettingsAcknowledged]
              example_protocol eq_refl ltac:(discriminate) eq_refl) as (H1 & H2 & _).
  split; assumption.
Defined.

(** C2, as stated, fails: on a fresh protocol, whose registry is empty, a
    [DataReceived] event for stream 7 raises [KeyError] out of
    [_handle_events] and out of [dataReceived]. *)
Lemma unknown_stream_id_crashes :
  fst (_handle_events [DataReceived 7 [] 0] example_protocol) = Raise (KeyError 7) /\
  fst (dataReceived example_codec [x04; x07] example_protocol) = Raise (KeyError 7).
Proof. split; reflexivity. Qed.

(** ** Receiving bytes *)

Ltac head_of t := lazymatch t with ?f _ => head_of f | _ => t end.

(** Walks through the code of a method to show that it keeps a view. *)
Ltac keeps_step :=
  lazymatch goal with
  | |- keeps _ (bind _ _) => apply keeps_bind; [|intros ?]
  | |- keeps _ (ret _) => apply keeps_ret
  | |- keeps _ (raise _) => apply keeps_raise
  | |- keeps _ (gets _) => apply keeps_gets
  | |- keeps _ (modify _) => apply keeps_modify; intros ?; reflexivity
  | |- keeps _ (for_each _ _) => apply keeps_for_each; intros ?
  | |- keeps _ (while_loop _ _ _) => apply keeps_while
  | |- keeps _ (match ?x with _ => _ end) => destruct x
  | |- keeps _ ?m => let h := head_of m in unfold h
  end.

Ltac keeps_tac := repeat keeps_step.


Lemma _write_to_transport_run (s : H2ClientProtocol) :
  fst (_write_to_transport s) = Return tt /\
  H2Connection.outbound (conn (snd (_write_to_transport s))) = [] /\
  Transport.written (transport (snd (_write_to_transport s)))
  = Transport.written (transport s) ++ [H2Connection.outbound (conn s)].
Proof. repeat split. Qed.




(** ** Stream ids *)

Lemma alter_stream_id (f : Stream.t -> Stream.t) (i : nat) (l : list Stream.t) :
  (forall st, Stream.stream_id (f st) = Stream.stream_id st) ->
  map Stream.stream_id (alter f i l) = map Stream.stream_id l.
Proof.
  intros Hf. revert i. induction l as [|st l IH]; intros [|i]; simpl; try reflexivity.
  - now rewrite Hf.
  - f_equal. apply IH.
Qed.

Lemma update_stream_keeps_ids (f : Stream.t -> Stream.t) (stream : Ref) :
  (forall st, Stream.stream_id (f st) = Stream.stream_id st) ->
  keeps ids_view (update_stream f stream).
Proof.
  intros Hf s. unfold ids_view, update_stream, modify. simpl.
  now rewrite alter_stream_id.
Qed.

Lemma close_stream_id reason causes st :
  Stream.stream_id (Stream.close reason causes st) = Stream.stream_id st.
Proof. unfold Stream.close. now destruct (Stream.close_reason st). Qed.

Ltac keeps_ids_step :=
  lazymatch goal with
  | |- keeps ids_view (update_stream (Stream.close _ _) _) =>
      apply update_stream_keeps_ids; intros ?; apply close_stream_id
  | |- keeps ids_view (update_stream _ _) =>
      apply update_stream_keeps_ids; intros ?; reflexivity
  | |- keeps ids_view (conn_data_to_send) => intros ?; reflexivity
  | |- _ => keeps_step
  end.

Lemma _send_pending_requests_keeps_ids : keeps ids_view _send_pending_requests.
Proof. repeat keeps_ids_step. Qed.

Lemma handle_event_keeps_ids (event : Event) : keeps ids_view (handle_event event).
Proof. repeat keeps_ids_step. Qed.

Lemma connectionLost_keeps_ids (reason : Failure) : keeps ids_view (connectionLost reason).
Proof. repeat keeps_ids_step. Qed.

Lemma timeoutConnection_keeps_ids : keeps ids_view timeoutConnection.
Proof. repeat keeps_ids_step. Qed.

Lemma dataReceived_keeps_ids receive_data (data : bytes) :
  keeps ids_view (dataReceived receive_data data).
Proof.
  unfold dataReceived. apply keeps_bind; [apply keeps_ret|]. intros _.
  apply keeps_try.
  - apply keeps_bind.
    + intros s. unfold conn_receive_data. now destruct (receive_data data (conn s)).
    + intros events. apply keeps_for_each, handle_event_keeps_ids.
  - intros e h He. destruct e; inversion He; subst. repeat keeps_ids_step.
  - repeat keeps_ids_step.
Qed.

(** A submitted request takes the next value of the generator as the id
    of the one stream it creates. *)
Lemma request_ids (r : Request) (s : H2ClientProtocol) :
  ids_view (snd (request (PyRequest r) s))
  = (Count.mk (Count.next_value (_stream_id_generator s) + Count.step (_stream_id_generator s))
              (Count.step (_stream_id_generator s)),
     map Stream.stream_id (objects s) ++ [Count.next_value (_stream_id_generator s)]).
Proof.
  unfold request, bind at 1.
  assert (Hnew : exists s1, _new_stream r s = (Return (length (objects s)), s1) /\
            ids_view s1
            = (Count.mk (Count.next_value (_stream_id_generator s)
                         + Count.step (_stream_id_generator s))
                        (Count.step (_stream_id_generator s)),
               map Stream.stream_id (objects s) ++ [Count.next_value (_stream_id_generator s)])).
  { unfold _new_stream, bind, gets, modify, new_stream_object, stream_stream_id, gets.
    simpl. eexists. split; [reflexivity|].
    unfold ids_view. simpl. now rewrite map_app. }
  destruct Hnew as (s1 & -> & <-).
  assert (Hrest : forall stream : Ref, keeps ids_view
            (modify (fun s0 => set_pending_request_stream_pool
                                 (_pending_request_stream_pool s0 ++ [stream]) s0) ;;
             _send_pending_requests ;; ret stream)).
  { intros stream. apply keeps_bind; [keeps_tac|]. intros _.
    apply keeps_bind; [apply _send_pending_requests_keeps_ids|]. intros _. apply keeps_ret. }
  exact (Hrest _ s1).
Qed.

Lemma run_op_ids receive_data (op : Op) (s : H2ClientProtocol) :
  ids_view (snd (run_op receive_data op s))
  = if is_submission op
    then (Count.mk (Count.next_value (_stream_id_generator s)
                    + Count.step (_stream_id_generator s))
                   (Count.step (_stream_id_generator s)),
          map Stream.stream_id (objects s) ++ [Count.next_value (_stream_id_generator s)])
    else ids_view s.
Proof.
  destruct op as [[r|q]|data| |reason|b]; unfold run_op, is_submission.
  - rewrite snd_bind_ret. apply request_ids.
  - reflexivity.
  - apply dataReceived_keeps_ids.
  - apply timeoutConnection_keeps_ids.
  - apply connectionLost_keeps_ids.
  - reflexivity.
Qed.

Lemma odd_ids_snoc (n : nat) : odd_ids (S n) = odd_ids n ++ [2 * Z.of_nat n + 1].
Proof.
  unfold odd_ids. rewrite seq_S, map_app. simpl. do 2 f_equal. lia.
Qed.

Lemma odd_ids_bound (n : nat) (x : Z) : In x (odd_ids n) -> x < 2 * Z.of_nat n.
Proof.
  unfold odd_ids. rewrite in_map_iff. intros (k & <- & Hk).
  apply in_seq in Hk. lia.
Qed.

Lemma odd_ids_NoDup (n : nat) : NoDup (odd_ids n).
Proof.
  induction n as [|n IH]; [constructor|].
  rewrite odd_ids_snoc. apply NoDup_app. split; [assumption|].
  split; [|apply NoDup_singleton].
  intros x Hx Hin. apply list_elem_of_In in Hx. apply odd_ids_bound in Hx.
  apply list_elem_of_singleton in Hin. lia.
Qed.

Lemma run_ops_ids receive_data (ops : list Op) : forall s : H2ClientProtocol,
  ids_view s = (Count.mk (2 * Z.of_nat (length (objects s)) + 1) 2,
                odd_ids (length (objects s))) ->
  let s' := run_ops receive_data ops s in
  length (objects s') = (length (objects s) + length (List.filter is_submission ops))%nat /\
  ids_view s' = (Count.mk (2 * Z.of_nat (length (objects s')) + 1) 2,
                 odd_ids (length (objects s'))).
Proof.
  induction ops as [|op ops IH]; intros s Hs; simpl.
  - split; [lia|assumption].
  - pose proof (run_op_ids receive_data op s) as Hop.
    set (s1 := snd (run_op receive_data op s)) in *.
    assert (Hlen : length (objects s1)
                   = (length (objects s) + if is_submission op then 1 else 0)%nat).
    { apply (f_equal (fun v => length (snd v))) in Hop. unfold ids_view in Hop.
      simpl in Hop. rewrite length_map in Hop. rewrite Hop.
      destruct (is_submission op); simpl; rewrite ?length_app, length_map; simpl; lia. }
    assert (Hs1 : ids_view s1 = (Count.mk (2 * Z.of_nat (length (objects s1)) + 1) 2,
                                 odd_ids (length (objects s1)))).
    { rewrite Hop, Hlen. unfold ids_view in Hs. injection Hs as Hg Hi.
      destruct (is_submission op).
      - rewrite Hg, Hi. simpl Count.next_value. simpl Count.step.
        replace (length (objects s) + 1)%nat with (S (length (objects s))) by lia.
        rewrite odd_ids_snoc. f_equal. f_equal. lia.
      - rewrite Nat.add_0_r. unfold ids_view. now rewrite Hg, Hi. }
    destruct (IH s1 Hs1) as [IH1 IH2]. split; [|exact IH2].
    rewrite IH1, Hlen. destruct (is_submission op); simpl; lia.
Qed.

(** C8: from a fresh protocol, whatever the sequence of steps (requests,
    received bytes, timeouts, connection loss) and whatever the codec,
    every submitted request creates one stream, and the ids of the
    streams created are 1, 3, 5, ... in the order of creation: the k-th
    stream has id 2k-1.  The ids are pairwise distinct, and the next id
    the generator hands out is the next odd number. *)
Theorem stream_ids_are_the_odd_numbers
    (receive_data : bytes -> H2Connection.t -> Result (list Event) * H2Connection.t)
    (ops : list Op) (uri0 : string) (maxsize warnsize : Z)
    (conn_lost_deferred : option Deferred.t)
    (conn0 : H2Connection.t) (transport0 : Transport.t) :
  let s := run_ops receive_data ops
             (init uri0 maxsize warnsize conn_lost_deferred conn0 transport0) in
  length (objects s) = length (List.filter is_submission ops) /\
  map Stream.stream_id (objects s) = odd_ids (length (objects s)) /\
  (forall (k : nat) st, objects s !! k = Some st ->
     Stream.stream_id st = 2 * Z.of_nat (S k) - 1) /\
  NoDup (map Stream.stream_id (objects s)) /\
  fst (Count.next (_stream_id_generator s)) = 2 * Z.of_nat (S (length (objects s))) - 1.
Proof.
  intros s.
  destruct (run_ops_ids receive_data ops
              (init uri0 maxsize warnsize conn_lost_deferred conn0 transport0) eq_refl)
    as [Hlen Hids].
  fold s in Hlen, Hids. simpl in Hlen. unfold ids_view in Hids. injection Hids as Hg Hi.
  split; [exact Hlen|]. split; [exact Hi|]. split; [|split].
  - intros k st Hk.
    assert (Hk' : map Stream.stream_id (objects s) !! k = Some (Stream.stream_id st)).
    { change (map Stream.stream_id (objects s)) with (Stream.stream_id <$> objects s).
      now rewrite list_lookup_fmap, Hk. }
    rewrite Hi in Hk'. unfold odd_ids in Hk'.
    change (map ?f ?l) with (f <$> l) in Hk'.
    rewrite list_lookup_fmap in Hk'.
    destruct (seq 1 (length (objects s)) !! k) as [j|] eqn:Hj; [|discriminate].
    apply lookup_seq in Hj as [-> _]. simpl in Hk'. injection Hk' as <-. f_equal.
  - rewrite Hi. apply odd_ids_NoDup.
  - rewrite Hg. simpl. lia.
Qed.

(** ** Losing the connection *)

Lemma foldl_alter_length (f : Stream.t -> Stream.t) (vals : list Ref) :
  forall h : list Stream.t,
  length (foldl (fun h stream => alter f stream h) h vals) = length h.
Proof.
  induction vals as [|x vals IH]; intros h; simpl; [reflexivity|].
  now rewrite IH, length_alter.
Qed.

Lemma foldl_alter_lookup_notin (f : Stream.t -> Stream.t) (vals : list Ref) :
  forall (h : list Stream.t) (stream : Ref),
  stream ∉ vals ->
  foldl (fun h stream => alter f stream h) h vals !! stream = h !! stream.
Proof.
  induction vals as [|x vals IH]; intros h stream Hnotin; simpl; [reflexivity|].
  apply not_elem_of_cons in Hnotin as [Hne Hnotin].
  rewrite IH by assumption. now apply list_lookup_alter_ne.
Qed.

Lemma foldl_alter_lookup_in (f : Stream.t -> Stream.t) (vals : list Ref) :
  forall (h : list Stream.t) (stream : Ref),
  NoDup vals -> stream ∈ vals ->
  foldl (fun h stream => alter f stream h) h vals !! stream = f <$> h !! stream.
Proof.
  induction vals as [|x vals IH]; intros h stream Hnd Hin; simpl.
  - inversion Hin.
  - apply NoDup_cons in Hnd as [Hx Hnd].
    apply elem_of_cons in Hin as [->|Hin].
    + rewrite foldl_alter_lookup_notin by assumption. apply list_lookup_alter_eq.
    + rewrite IH by assumption. rewrite list_lookup_alter_ne; [reflexivity|].
      intros ->. contradiction.
Qed.

Lemma teardown_close_request_sent errors st :
  Stream.request_sent (teardown_close errors st) = Stream.request_sent st.
Proof.
  unfold teardown_close, Stream.close.
  destruct (Stream.request_sent st) eqn:E, (Stream.close_reason st); simpl; congruence.
Qed.

Lemma teardown_call_after_close errors h x stream :
  teardown_call errors (alter (teardown_close errors) x h) stream
  = teardown_call errors h stream.
Proof.
  unfold teardown_call. destruct (decide (x = stream)) as [->|Hne].
  - rewrite list_lookup_alter_eq. destruct (h !! stream) as [st|]; simpl; [|reflexivity].
    now rewrite teardown_close_request_sent.
  - now rewrite list_lookup_alter_ne.
Qed.


(** The loop of [connectionLost] over the registry. *)
Lemma teardown_loop (vals : list Ref) : forall s : H2ClientProtocol,
  for_each vals connectionLost_body s
  = (Return tt,
     set_objects
       (foldl (fun h stream => alter (teardown_close (_conn_lost_errors s)) stream h)
          (objects s) vals)
       (set_calls
          (calls s ++ map (teardown_call (_conn_lost_errors s) (objects s)) vals) s)).
Proof.
  induction vals as [|x vals IH]; intros s.
  - simpl. rewrite app_nil_r. now destruct s.
  - simpl for_each. unfold bind at 1.
    assert (Hbody :
      connectionLost_body x s
      = (Return tt,
         set_objects (alter (teardown_close (_conn_lost_errors s)) x (objects s))
           (set_calls (calls s ++ [teardown_call (_conn_lost_errors s) (objects s) x]) s))).
    { unfold connectionLost_body, bind at 1.
      unfold stream_request_sent. unfold gets at 1. cbv beta iota.
      unfold teardown_call, teardown_close.
      destruct (from_option Stream.request_sent false (objects s !! x)) eqn:Hsent.
      - unfold bind, gets, stream_close, bind, log_call, update_stream, modify. simpl.
        do 2 f_equal. apply list_alter_ext; [|reflexivity].
        intros st Hst. rewrite Hst in Hsent. simpl in Hsent. now rewrite Hsent.
      - unfold stream_close, bind, log_call, update_stream, modify. simpl.
        do 2 f_equal. apply list_alter_ext; [|reflexivity].
        intros st Hst. rewrite Hst in Hsent. simpl in Hsent. now rewrite Hsent. }
    rewrite Hbody, IH. simpl.
    rewrite (map_ext _ (teardown_call (_conn_lost_errors s) (objects s))
               (fun y => teardown_call_after_close _ _ _ y)).
    unfold set_objects, set_calls; simpl. now rewrite <- app_assoc.
Qed.

(** What [connectionLost] does when the deferred, if any, can still fire. *)
Lemma connectionLost_run (reason : Failure) (s : H2ClientProtocol) :
  deferred_pending s ->
  exists s', connectionLost reason s = (Return tt, s') /\
    _conn_lost_errors s' = lost_errors reason s /\
    _conn_lost_deferred s'
      = option_map (fun _ => Deferred.mk true (lost_errors reason s)) (_conn_lost_deferred s) /\
    streams s' = [] /\
    _pending_request_stream_pool s' = [] /\
    _active_streams s' = _active_streams s - Z.of_nat (length (streams s)) /\
    calls s' = calls s ++ map (teardown_call (lost_errors reason s) (objects s))
                            (dict_values (streams s)) /\
    objects s' = foldl (fun h stream => alter (teardown_close (lost_errors reason s)) stream h)
                   (objects s) (dict_values (streams s)) /\
    conn s' = H2Connection.close_connection NO_ERROR (conn s) /\
    transport s' = transport s /\
    timeOut s' = None.
Proof.
  intros Hd. unfold deferred_pending in Hd.
  unfold connectionLost, lost_errors.
  unfold bind at 1. unfold setTimeout, modify at 1.
  unfold bind at 1.
  destruct (_conn_lost_deferred s) as [d|] eqn:Ed;
    destruct (check_connectionDone reason); cbn [negb]; unfold modify at 1, ret at 1;
    unfold bind at 1; unfold gets at 1;
    cbn [_conn_lost_deferred set_timeOut set_conn_lost_errors];
    rewrite Ed; unfold bind at 1.
  all: try (unfold bind at 1; unfold gets at 1; unfold deferred_callback, Deferred.callback;
            rewrite Hd; unfold modify at 1).
  all: try unfold ret at 1.
  all: unfold bind at 1; unfold gets at 1; unfold bind at 1; rewrite teardown_loop.
  all: unfold bind, modify, conn_close_connection, modify; simpl.
  all: rewrite ?app_nil_r, ?Ed; eexists; repeat split.
  all: exact Ed.
Qed.

Lemma filter_split_length (f : Ref -> bool) (l : list Ref) :
  (length (filter (fun x => f x = true) l) + length (filter (fun x => f x = false) l)
   = length l)%nat.
Proof.
  induction l as [|x l IH]; [reflexivity|].
  rewrite !filter_cons. destruct (f x) eqn:E.
  - rewrite decide_True by reflexivity. rewrite decide_False by discriminate.
    simpl. lia.
  - rewrite decide_False by discriminate. rewrite decide_True by reflexivity.
    simpl. lia.
Qed.

(** What the teardown does to the completion of a registered stream. *)
Lemma teardown_completion (errors : list ConnLostError) (s : H2ClientProtocol)
    (h' : list Stream.t) (stream : Ref) :
  registry_ok s ->
  h' = foldl (fun h stream => alter (teardown_close errors) stream h)
         (objects s) (dict_values (streams s)) ->
  stream ∈ dict_values (streams s) ->
  objects s !! stream ≫= Stream.completion = None /\
  h' !! stream ≫= Stream.completion
  = Some (if sent s stream then Failed CONNECTION_LOST errors else Failed INACTIVE []).
Proof.
  intros [Hnd Hall] -> Hin.
  rewrite Forall_forall in Hall. destruct (Hall stream Hin) as (st & Hst & Hcr & Hco).
  rewrite foldl_alter_lookup_in by assumption.
  unfold sent. rewrite Hst. simpl. split; [assumption|].
  unfold teardown_close, Stream.close. rewrite Hcr.
  now destruct (Stream.request_sent st).
Qed.

(** C3: when the connection is lost with a well-formed registry, the
    teardown returns normally and closes every registered stream exactly
    once, in the order of the registry: the K streams whose request was
    sent ([admitted]) are exactly the streams whose completion goes from
    unfulfilled to a failure with reason [CONNECTION_LOST] carrying the
    accumulated causes, the M streams whose request was never sent
    ([unsent]) are exactly those whose completion goes from unfulfilled to
    a failure with reason [INACTIVE], K + M is the size of the registry,
    no other stream is touched, the deferred fires with the causes, and
    the registry and the pending pool end up empty. *)
Theorem connectionLost_closes_every_stream (reason : Failure) (s : H2ClientProtocol) :
  registry_ok s ->
  deferred_pending s ->
  let s' := snd (connectionLost reason s) in
  let errors := lost_errors reason s in
  fst (connectionLost reason s) = Return tt /\
  _conn_lost_errors s' = errors /\
  _conn_lost_deferred s' = option_map (fun _ => Deferred.mk true errors) (_conn_lost_deferred s) /\
  streams s' = [] /\
  _pending_request_stream_pool s' = [] /\
  calls s' = calls s ++ map (teardown_call errors (objects s)) (dict_values (streams s)) /\
  NoDup (dict_values (streams s)) /\
  NoDup (admitted s) /\
  NoDup (unsent s) /\
  (length (admitted s) + length (unsent s) = length (streams s))%nat /\
  (forall stream,
     stream ∈ admitted s <->
     completion_of s stream = None /\
     completion_of s' stream = Some (Failed CONNECTION_LOST errors)) /\
  (forall stream,
     stream ∈ unsent s <->
     completion_of s stream = None /\
     completion_of s' stream = Some (Failed INACTIVE [])) /\
  (forall stream,
     stream ∉ dict_values (streams s) -> objects s' !! stream = objects s !! stream).
Proof.
  intros Hok Hd s' errors. subst s' errors.
  destruct (connectionLost_run reason s Hd)
    as (s' & Hrun & He & Hdef & Hs & Hp & _ & Hc & Ho & _).
  rewrite Hrun. simpl fst. simpl snd.
  assert (Hnotin : forall stream,
            stream ∉ dict_values (streams s) -> objects s' !! stream = objects s !! stream).
  { intros stream Hn. rewrite Ho. now apply foldl_alter_lookup_notin. }
  assert (Hin : forall stream, stream ∈ dict_values (streams s) ->
            completion_of s stream = None /\
            completion_of s' stream
            = Some (if sent s stream then Failed CONNECTION_LOST (lost_errors reason s)
                    else Failed INACTIVE [])).
  { intros stream Hi. unfold completion_of.
    exact (teardown_completion _ s (objects s') stream Hok Ho Hi). }
  destruct Hok as [Hnd Hall].
  repeat split; try assumption.
  - now apply NoDup_filter.
  - now apply NoDup_filter.
  - unfold admitted, unsent. rewrite filter_split_length.
    unfold dict_values. now rewrite length_map.
  - apply list_elem_of_filter in H as [Hsent Hi]. now destruct (Hin stream Hi).
  - apply list_elem_of_filter in H as [Hsent Hi].
    destruct (Hin stream Hi) as [_ H2]. now rewrite Hsent in H2.
  - intros [H1 H2]. apply list_elem_of_filter.
    destruct (decide (stream ∈ dict_values (streams s))) as [Hi|Hn].
    + split; [|assumption]. destruct (Hin stream Hi) as [_ H3].
      rewrite H3 in H2. now destruct (sent s stream).
    + unfold completion_of in *. rewrite (Hnotin stream Hn) in H2. congruence.
  - apply list_elem_of_filter in H as [Hsent Hi]. now destruct (Hin stream Hi).
  - apply list_elem_of_filter in H as [Hsent Hi].
    destruct (Hin stream Hi) as [_ H2]. now rewrite Hsent in H2.
  - intros [H1 H2]. apply list_elem_of_filter.
    destruct (decide (stream ∈ dict_values (streams s))) as [Hi|Hn].
    + split; [|assumption]. destruct (Hin stream Hi) as [_ H3].
      rewrite H3 in H2. now destruct (sent s stream).
    + unfold completion_of in *. rewrite (Hnotin stream Hn) in H2. congruence.
Qed.

Lemma example_busy_protocol_ok :
  registry_ok example_busy_protocol /\ deferred_pending example_busy_protocol.
Proof.
  split; [split|reflexivity].
  - apply (bool_decide_unpack _). vm_compute. exact I.
  - repeat constructor; eexists; (split; [reflexivity|split; reflexivity]).
Qed.

(** Two streams had sent their request and one was waiting when the
    transport failed: two completions fail with [CONNECTION_LOST] and the
    cause, one with [INACTIVE]. *)
Lemma connectionLost_closes_every_stream_witness :
  let s := example_busy_protocol in
  let s' := snd (connectionLost broken_pipe s) in
  admitted s = [0; 1]%nat /\ unsent s = [2]%nat /\
  streams s' = [] /\ _pending_request_stream_pool s' = [] /\
  (completion_of s 0%nat = None /\
   completion_of s' 0%nat = Some (Failed CONNECTION_LOST [LostReason broken_pipe])) /\
  (completion_of s 2%nat = None /\
   completion_of s' 2%nat = Some (Failed INACTIVE [])).
Proof.
  intros s s'.
  destruct (connectionLost_closes_every_stream broken_pipe s
              (proj1 example_busy_protocol_ok) (proj2 example_busy_protocol_ok))
    as (_ & _ & _ & Hs & Hp & _ & _ & _ & _ & _ & Hk & Hm & _).
  split; [reflexivity|]. split; [reflexivity|].
  split; [exact Hs|]. split; [exact Hp|]. split.
  - apply (proj1 (Hk 0%nat)). apply (bool_decide_unpack _). vm_compute. exact I.
  - apply (proj1 (Hm 2%nat)). apply (bool_decide_unpack _). vm_compute. exact I.
Defined.

(** *** The counter of active streams *)

(** C1, what the code does: [connectionLost] subtracts the size of the
    whole registry from [_active_streams], the streams that were never
    admitted included.  Starting from a counter equal to the number of
    admitted streams, it ends at minus the number of registered streams
    that never sent their request, while no admitted stream is left. *)
Theorem connectionLost_counts_unsent_streams (reason : Failure) (s : H2ClientProtocol) :
  deferred_pending s ->
  _active_streams s = Z.of_nat (length (admitted s)) ->
  let s' := snd (connectionLost reason s) in
  fst (connectionLost reason s) = Return tt /\
  admitted s' = [] /\
  _active_streams s' = - Z.of_nat (length (unsent s)).
Proof.
  intros Hd Ha s'. subst s'.
  destruct (connectionLost_run reason s Hd) as (s' & Hrun & _ & _ & Hs & _ & Hact & _).
  rewrite Hrun. simpl. split; [reflexivity|]. split.
  - unfold admitted. now rewrite Hs.
  - rewrite Hact, Ha.
    pose proof (filter_split_length (sent s) (dict_values (streams s))) as Hlen.
    unfold dict_values in Hlen at 3. rewrite length_map in Hlen.
    unfold admitted, unsent. lia.
Qed.

(** One request is submitted before the settings are acknowledged and
    waits in the pool; the connection is then lost: the counter drops
    from 0 to -1. *)
Lemma connectionLost_counts_unsent_streams_witness :
  let s := snd (request (PyRequest example_request) example_protocol) in
  let s' := snd (connectionLost clean_close s) in
  _pending_request_stream_pool s = [0%nat] /\ admitted s = [] /\ _active_streams s = 0 /\
  fst (connectionLost clean_close s) = Return tt /\
  admitted s' = [] /\ _active_streams s' = -1.
Proof.
  intros s s'.
  destruct (connectionLost_counts_unsent_streams clean_close s I eq_refl) as (H1 & H2 & H3).
  repeat split; assumption.
Defined.

(** *** Losing the connection twice *)

(** What [connectionLost] does when the deferred has already fired. *)
Lemma connectionLost_fired (reason : Failure) (s : H2ClientProtocol) d :
  _conn_lost_deferred s = Some d ->
  Deferred.called d = true ->
  exists s', connectionLost reason s = (Raise AlreadyCalledError, s') /\
    _conn_lost_errors s' = lost_errors reason s /\
    _conn_lost_deferred s' = _conn_lost_deferred s /\
    streams s' = streams s /\
    _pending_request_stream_pool s' = _pending_request_stream_pool s /\
    _active_streams s' = _active_streams s /\
    calls s' = calls s /\
    objects s' = objects s.
Proof.
  intros Ed Hd. unfold connectionLost, lost_errors.
  unfold bind at 1. unfold setTimeout, modify at 1. unfold bind at 1.
  destruct (check_connectionDone reason); cbn [negb]; unfold modify at 1, ret at 1;
    unfold bind at 1; unfold gets at 1;
    cbn [_conn_lost_deferred set_timeOut set_conn_lost_errors];
    rewrite Ed; unfold bind at 1;
    unfold bind at 1; unfold gets at 1; unfold deferred_callback, Deferred.callback;
    rewrite Hd; unfold raise;
    rewrite ?app_nil_r; eexists; repeat split; exact Ed.
Qed.




(** ** The registry stays well formed *)

Section Preserves.
Context (P : H2ClientProtocol -> Prop).

Lemma preserves_bind {A B} (m : M A) (k : A -> M B) :
  preserves P m -> (forall a, preserves P (k a)) -> preserves P (bind m k).
Proof.
  intros Hm Hk s Hs. unfold bind. specialize (Hm s Hs).
  destruct (m s) as [[a|e] s1]; simpl in *; [|assumption].
  now apply Hk.
Qed.

Lemma preserves_ret {A} (a : A) : preserves P (ret a).
Proof. now intros s. Qed.

Lemma preserves_for_each {A} (l : list A) (body : A -> M unit) :
  (forall x, preserves P (body x)) -> preserves P (for_each l body).
Proof.
  intros Hb. induction l as [|x l IH]; simpl.
  - apply preserves_ret.
  - apply preserves_bind; auto.
Qed.

Lemma preserves_finally final r :
  preserves P final -> P (snd r) -> P (snd (run_finally final r)).
Proof.
  intros Hf Hr. destruct r as [[[]|e] s1]; simpl in *.
  - now apply Hf.
  - specialize (Hf s1 Hr). now destruct (final s1) as [[?|?] s2].
Qed.

Lemma preserves_try body handler final :
  preserves P body -> (forall e h, handler e = Some h -> preserves P h) ->
  preserves P final ->
  preserves P (try_except_finally body handler final).
Proof.
  intros Hb Hh Hf s Hs. unfold try_except_finally.
  specialize (Hb s Hs). destruct (body s) as [[[]|e] s1]; simpl in Hb.
  - now apply preserves_finally.
  - destruct (handler e) as [h|] eqn:Eh.
    + apply preserves_finally; [assumption|]. now apply (Hh e h Eh).
    + now apply preserves_finally.
Qed.
End Preserves.

Lemma registry_ok_view (s s' : H2ClientProtocol) :
  registry_view s' = registry_view s -> registry_ok s -> registry_ok s'.
Proof.
  unfold registry_view. intros Hv [Hnd Hall]. injection Hv as Hs Ho.
  split; rewrite Hs; [assumption|].
  eapply Forall_impl; [exact Hall|]. intros stream (st & Hst & Hcr & Hco). simpl.
  assert (Hl : map (fun st => (Stream.close_reason st, Stream.completion st)) (objects s')
               !! stream = Some (None, None)).
  { rewrite Ho. change (map ?f ?l) with (f <$> l).
    rewrite list_lookup_fmap, Hst. simpl. now rewrite Hcr, Hco. }
  change (map ?f ?l) with (f <$> l) in Hl. rewrite list_lookup_fmap in Hl.
  destruct (objects s' !! stream) as [st'|]; [|discriminate].
  simpl in Hl. injection Hl as H1 H2. exists st'. repeat split; assumption.
Qed.

Lemma keeps_view_preserves {A} (m : M A) :
  keeps registry_view m -> preserves registry_ok m.
Proof. intros Hk s Hs. eapply registry_ok_view; [apply Hk|assumption]. Qed.

Lemma alter_registry_view (f : Stream.t -> Stream.t) (i : nat) (l : list Stream.t) :
  (forall st, Stream.close_reason (f st) = Stream.close_reason st /\
              Stream.completion (f st) = Stream.completion st) ->
  map (fun st => (Stream.close_reason st, Stream.completion st)) (alter f i l)
  = map (fun st => (Stream.close_reason st, Stream.completion st)) l.
Proof.
  intros Hf. revert i. induction l as [|st l IH]; intros [|i]; simpl; try reflexivity.
  - destruct (Hf st) as [-> ->]. reflexivity.
  - f_equal. apply IH.
Qed.

Lemma update_stream_keeps_view (f : Stream.t -> Stream.t) (stream : Ref) :
  (forall st, Stream.close_reason (f st) = Stream.close_reason st /\
              Stream.completion (f st) = Stream.completion st) ->
  keeps registry_view (update_stream f stream).
Proof.
  intros Hf s. unfold registry_view, update_stream, modify. simpl.
  now rewrite alter_registry_view.
Qed.

Ltac keeps_view_step :=
  lazymatch goal with
  | |- keeps registry_view (update_stream _ _) =>
      apply update_stream_keeps_view; intros ?; split; reflexivity
  | |- keeps registry_view (conn_data_to_send) => intros ?; reflexivity
  | |- _ => keeps_step
  end.

Lemma _send_pending_requests_keeps_view : keeps registry_view _send_pending_requests.
Proof. repeat keeps_view_step. Qed.

Lemma dict_pop_values (k : Z) (d d' : list (Z * Ref)) (v : Ref) :
  dict_pop k d = Some (v, d') ->
  NoDup (dict_values d) ->
  NoDup (dict_values d') /\ (v ∉ dict_values d') /\
  (forall x, x ∈ dict_values d' -> x ∈ dict_values d).
Proof.
  revert d'. induction d as [|[k0 v0] d IH]; intros d' Hpop Hnd; simpl in *; [discriminate|].
  apply NoDup_cons in Hnd as [Hv0 Hnd].
  destruct (k =? k0).
  - injection Hpop as <- <-. repeat split; try assumption.
    intros x Hx. now apply elem_of_cons; right.
  - destruct (dict_pop k d) as [[x d'']|] eqn:E; [|discriminate].
    injection Hpop as <- <-. destruct (IH d'' eq_refl Hnd) as (H1 & H2 & H3). simpl.
    split; [|split].
    + apply NoDup_cons. split; [|assumption]. intros Hin. apply Hv0. now apply H3.
    + intros Hin. apply elem_of_cons in Hin as [->|Hin]; [|contradiction].
      apply Hv0. clear -E. revert d'' E.
      induction d as [|[k1 v1] d IHd]; intros d'' E; simpl in *; [discriminate|].
      destruct (k =? k1).
      * injection E as <- _. apply elem_of_cons; now left.
      * destruct (dict_pop k d) as [[y d3]|]; [|discriminate].
        injection E as <- _. apply elem_of_cons; right. now apply (IHd d3).
    + intros y Hy. apply elem_of_cons in Hy as [->|Hy].
      * apply elem_of_cons; now left.
      * apply elem_of_cons; right. now apply H3.
Qed.

Lemma dict_set_values (k : Z) (v : Ref) (d : list (Z * Ref)) :
  NoDup (dict_values d) -> v ∉ dict_values d ->
  NoDup (dict_values (dict_set k v d)) /\
  (forall x, x ∈ dict_values (dict_set k v d) -> x = v \/ x ∈ dict_values d).
Proof.
  induction d as [|[k0 v0] d IH]; intros Hnd Hv; simpl in *.
  - split; [apply NoDup_singleton|]. intros x Hx.
    apply list_elem_of_singleton in Hx. now left.
  - apply NoDup_cons in Hnd as [Hv0 Hnd]. apply not_elem_of_cons in Hv as [Hne Hv].
    destruct (k =? k0); simpl.
    + split.
      * apply NoDup_cons. split; assumption.
      * intros x Hx. apply elem_of_cons in Hx as [->|Hx]; [now left|].
        right. apply elem_of_cons; now right.
    + destruct (IH Hnd Hv) as [H1 H2]. split.
      * apply NoDup_cons. split; [|assumption]. intros Hin.
        destruct (H2 v0 Hin) as [->|?]; contradiction.
      * intros x Hx. apply elem_of_cons in Hx as [->|Hx].
        -- right. apply elem_of_cons; now left.
        -- destruct (H2 x Hx) as [->|?]; [now left|]. right. apply elem_of_cons; now right.
Qed.

Lemma close_unregistered_preserves (stream : Ref) reason errors from_protocol
    (s : H2ClientProtocol) :
  registry_ok s -> stream ∉ dict_values (streams s) ->
  registry_ok (snd (stream_close stream reason errors from_protocol s)).
Proof.
  intros [Hnd Hall] Hnotin. split; [exact Hnd|]. simpl.
  rewrite Forall_forall in *. intros x Hx.
  destruct (Hall x Hx) as (st & Hst & Hopen). exists st. split; [|assumption].
  rewrite list_lookup_alter_ne; [assumption|]. intros ->. contradiction.
Qed.

Lemma pop_close_preserves (stream_id : Z) reason errors :
  preserves registry_ok
    (stream <- pop_stream stream_id ;; stream_close stream reason errors true).
Proof.
  intros s Hok. unfold bind at 1, pop_stream. unfold bind at 1, gets at 1.
  destruct (dict_pop stream_id (streams s)) as [[stream d']|] eqn:Hpop; [|exact Hok].
  destruct (dict_pop_values _ _ _ _ Hpop (proj1 Hok)) as (Hnd' & Hnotin & Hsub).
  unfold bind at 1, modify at 1. unfold bind at 1, modify at 1. unfold bind at 1.
  set (s2 := set_active_streams _ _).
  assert (Hok2 : registry_ok s2 /\ stream ∉ dict_values (streams s2)).
  { split; [split|]; try assumption. simpl.
    destruct Hok as [_ Hall]. rewrite Forall_forall in *. intros x Hx. apply Hall, Hsub, Hx. }
  destruct (_send_pending_requests_spec s2) as (s3 & Hrun & _).
  pose proof (_send_pending_requests_keeps_view s2) as Hview. rewrite Hrun in *.
  simpl in Hview. unfold ret.
  apply close_unregistered_preserves.
  - eapply registry_ok_view; [exact Hview|apply Hok2].
  - unfold registry_view in Hview. injection Hview as -> _. apply Hok2.
Qed.

Lemma handle_event_preserves (event : Event) : preserves registry_ok (handle_event event).
Proof.
  destruct event; unfold handle_event;
    try (apply keeps_view_preserves; repeat keeps_view_step; fail).
  - apply pop_close_preserves.
  - apply pop_close_preserves.
Qed.

Lemma request_preserves (o : PyObject) : preserves registry_ok (request o).
Proof.
  destruct o as [r|q]; [|now intros s].
  intros s [Hnd Hall]. unfold request, bind at 1.
  destruct (_new_stream_run r s) as (s1 & -> & Hs1 & Ho1).
  assert (Hfresh : length (objects s) ∉ dict_values (streams s)).
  { intros Hin. rewrite Forall_forall in Hall. destruct (Hall _ Hin) as (st & Hst & _).
    apply lookup_lt_Some in Hst. lia. }
  destruct (dict_set_values (Count.next_value (_stream_id_generator s))
              (length (objects s)) (streams s) Hnd Hfresh) as [Hnd1 Hsub].
  assert (Hok1 : registry_ok s1).
  { split; rewrite Hs1; [assumption|]. rewrite Forall_forall in *. intros x Hx.
    rewrite Ho1. destruct (Hsub x Hx) as [->|Hin].
    - eexists. split; [now rewrite lookup_app_r, Nat.sub_diag by lia|]. now split.
    - destruct (Hall x Hin) as (st & Hst & Hopen). exists st. split; [|assumption].
      rewrite lookup_app_l; [assumption|]. now apply lookup_lt_Some in Hst. }
  assert (Hrest : forall stream : Ref, keeps registry_view
            (modify (fun s0 => set_pending_request_stream_pool
                                 (_pending_request_stream_pool s0 ++ [stream]) s0) ;;
             _send_pending_requests ;; ret stream)).
  { intros stream. repeat keeps_view_step. }
  eapply registry_ok_view; [apply (Hrest _ s1)|exact Hok1].
Qed.

Lemma connectionLost_preserves (reason : Failure) :
  preserves registry_ok (connectionLost reason).
Proof.
  intros s Hok.
  destruct (_conn_lost_deferred s) as [d|] eqn:Ed.
  - destruct (Deferred.called d) eqn:Hc.
    + destruct (connectionLost_fired reason s d Ed Hc)
        as (s' & -> & _ & _ & Hs & _ & _ & _ & Ho).
      simpl. unfold registry_ok. rewrite Hs, Ho. exact Hok.
    + destruct (connectionLost_run reason s) as (s' & -> & _ & _ & Hs & _).
      { unfold deferred_pending. now rewrite Ed. }
      simpl. unfold registry_ok. rewrite Hs. split; constructor.
  - destruct (connectionLost_run reason s) as (s' & -> & _ & _ & Hs & _).
    { unfold deferred_pending. now rewrite Ed. }
    simpl. unfold registry_ok. rewrite Hs. split; constructor.
Qed.

Lemma dataReceived_preserves receive_data (data : bytes) :
  preserves registry_ok (dataReceived receive_data data).
Proof.
  unfold dataReceived. apply preserves_bind; [apply preserves_ret|]. intros _.
  apply preserves_try.
  - apply preserves_bind.
    + apply keeps_view_preserves. intros s. unfold conn_receive_data.
      now destruct (receive_data data (conn s)).
    + intros events. apply preserves_for_each, handle_event_preserves.
  - intros e h He. destruct e; inversion He; subst.
    apply keeps_view_preserves. repeat keeps_view_step.
  - apply keeps_view_preserves. repeat keeps_view_step.
Qed.

Lemma run_op_preserves receive_data (op : Op) :
  preserves registry_ok (run_op receive_data op).
Proof.
  destruct op; unfold run_op.
  - apply preserves_bind; [apply request_preserves|]. intros _. apply preserves_ret.
  - apply dataReceived_preserves.
  - apply keeps_view_preserves. repeat keeps_view_step.
  - apply connectionLost_preserves.
  - apply keeps_view_preserves. repeat keeps_view_step.
Qed.

(** In every state a connection can reach, whatever the codec, the
    registry is well formed. *)
Lemma registry_ok_reachable
    (receive_data : bytes -> H2Connection.t -> Result (list Event) * H2Connection.t)
    (ops : list Op) (uri0 : string) (maxsize warnsize : Z)
    (conn_lost_deferred : option Deferred.t)
    (conn0 : H2Connection.t) (transport0 : Transport.t) :
  registry_ok (run_ops receive_data ops
                 (init uri0 maxsize warnsize conn_lost_deferred conn0 transport0)).
Proof.
  assert (H : forall s, registry_ok s -> registry_ok (run_ops receive_data ops s)).
  { induction ops as [|op ops IH]; intros s Hs; simpl; [assumption|].
    apply IH. now apply run_op_preserves. }
  apply H. split; constructor.
Qed.

(** * Further properties of the protocol *)

(** ** Dispatch order *)

Lemma for_each_app {A} (l1 l2 : list A) (body : A -> M unit) (s : H2ClientProtocol) :
  for_each (l1 ++ l2) body s = (for_each l1 body ;; for_each l2 body) s.
Proof.
  revert s. induction l1 as [|x l1 IH]; intros s; simpl.
  - reflexivity.
  - unfold bind. destruct (body x s) as [[[]|e] s1]; [|reflexivity].
    rewrite IH. reflexivity.
Qed.

Lemma delivery_streams (s s0 : H2ClientProtocol) (event : Event) :
  streams s = streams s0 -> delivery s event = delivery s0 event.
Proof. intros H. unfold delivery. now rewrite H. Qed.

(** Dispatching one payload event whose stream is registered. *)
Lemma deliver_one (event : Event) (c : StreamCall) (s : H2ClientProtocol) :
  delivery s event = Some c ->
  exists s1, handle_event event s = (Return tt, s1) /\
    calls s1 = calls s ++ [c] /\
    streams s1 = streams s /\
    _pending_request_stream_pool s1 = _pending_request_stream_pool s /\
    _active_streams s1 = _active_streams s.
Proof.
  destruct event; simpl; try discriminate.
  - destruct (dict_get stream_id (streams s)) as [stream|] eqn:Hget; [|discriminate].
    intros [= <-]. unfold data_received, bind, streams_getitem, bind, gets. rewrite Hget.
    eexists. repeat split.
  - destruct (dict_get stream_id (streams s)) as [stream|] eqn:Hget; [|discriminate].
    intros [= <-]. unfold response_received, bind, streams_getitem, bind, gets. rewrite Hget.
    eexists. repeat split.
  - unfold window_updated. destruct (stream_id =? 0); [discriminate|].
    destruct (dict_get stream_id (streams s)) as [stream|] eqn:Hget; [|discriminate].
    intros [= <-]. simpl. unfold bind, streams_getitem, bind, gets. rewrite Hget.
    eexists. repeat split.
Qed.

Lemma deliver_all (s0 : H2ClientProtocol) (events : list Event) :
  Forall (fun event => is_Some (delivery s0 event)) events ->
  forall s, streams s = streams s0 ->
  exists s', _handle_events events s = (Return tt, s') /\
    calls s' = calls s ++ omap (delivery s0) events /\
    streams s' = streams s0 /\
    _pending_request_stream_pool s' = _pending_request_stream_pool s /\
    _active_streams s' = _active_streams s.
Proof.
  unfold _handle_events. induction 1 as [|event events [c Hc] _ IH]; intros s Hs.
  - exists s. simpl. rewrite app_nil_r. repeat split. assumption.
  - assert (Hc' : delivery s event = Some c) by (now rewrite (delivery_streams s s0)).
    destruct (deliver_one event c s Hc') as (s1 & Hrun & Hc1 & Hs1 & Hp1 & Ha1).
    destruct (IH s1) as (s' & Hrun' & Hc2 & Hs2 & Hp2 & Ha2); [congruence|].
    exists s'. simpl for_each. rewrite (bind_return _ _ _ _ _ Hrun). rewrite Hrun'.
    simpl omap. rewrite Hc. rewrite Hc2, Hc1, <- app_assoc.
    repeat split; try assumption; congruence.
Qed.

(** X1: payload events reach the streams they name, once each and in the
    order the codec produced them: when every event of a batch is a
    [ResponseReceived], a [DataReceived] or a [WindowUpdated] with a
    non-zero id naming a registered stream, [_handle_events] returns
    after calling, for each event in turn, [receive_headers],
    [receive_data] or [receive_window_update] with the event's payload on
    the stream registered under the event's id, and nothing else on any
    stream; registry, pool and counter are unchanged.  If the batch goes
    on with an event naming an unregistered id, these calls are made, the
    [KeyError] is raised there and the rest of the batch is dropped. *)
Theorem payload_events_are_delivered_in_order
    (events rest : list Event) (s : H2ClientProtocol) :
  Forall (fun event => is_Some (delivery s event)) events ->
  let s' := snd (_handle_events events s) in
  fst (_handle_events events s) = Return tt /\
  calls s' = calls s ++ omap (delivery s) events /\
  length (omap (delivery s) events) = length events /\
  streams s' = streams s /\
  _pending_request_stream_pool s' = _pending_request_stream_pool s /\
  _active_streams s' = _active_streams s /\
  (forall event id,
     event_stream_id event = Some id -> event <> WindowUpdated 0 ->
     dict_get id (streams s) = None ->
     _handle_events (events ++ event :: rest) s = (Raise (KeyError id), s')).
Proof.
  intros Hall s'. subst s'.
  destruct (deliver_all s events Hall s eq_refl) as (s' & Hrun & Hc & Hs & Hp & Ha).
  rewrite Hrun. simpl fst. simpl snd.
  split; [reflexivity|]. split; [assumption|]. split.
  { clear -Hall. induction Hall as [|event events [c Hc] _ IH]; [reflexivity|].
    simpl. rewrite Hc. simpl. f_equal. exact IH. }
  split; [assumption|]. split; [assumption|]. split; [assumption|].
  intros event id Hid Hne Hget. unfold _handle_events in *.
  rewrite for_each_app. rewrite (bind_return _ _ _ _ _ Hrun).
  simpl for_each. rewrite <- Hs in Hget.
  now rewrite (bind_raise _ _ _ _ _ (handle_event_unknown_id event id s' Hid Hne Hget)).
Qed.

(** Streams 1 and 3 are open: headers and data for stream 1 interleaved
    with data and a window update for stream 3, then data for the
    unknown stream 9. *)
Lemma payload_events_are_delivered_in_order_witness :
  let events := [ResponseReceived 1 [("status", "200")%string]; DataReceived 3 [x01] 1;
                 DataReceived 1 [x02] 1; WindowUpdated 3] in
  let s' := snd (_handle_events events example_busy_protocol) in
  calls s'
  = calls example_busy_protocol
    ++ [Call_receive_headers 0%nat [("status", "200")%string];
        Call_receive_data 1%nat [x01] 1; Call_receive_data 0%nat [x02] 1;
        Call_receive_window_update 1%nat] /\
  _handle_events (events ++ [DataReceived 9 [] 0; StreamEnded 1]) example_busy_protocol
  = (Raise (KeyError 9), s').
Proof.
  intros events s'.
  assert (Hall : Forall (fun event => is_Some (delivery example_busy_protocol event)) events).
  { repeat constructor; eexists; vm_compute; reflexivity. }
  destruct (payload_events_are_delivered_in_order events [StreamEnded 1]
              example_busy_protocol Hall) as (_ & Hc & _ & _ & _ & _ & Hraise).
  split.
  - exact Hc.
  - exact (Hraise (DataReceived 9 [] 0) 9 eq_refl ltac:(discriminate) eq_refl).
Defined.

(** ** Submitting a request *)

Lemma dict_get_set_eq {V} (k : Z) (v : V) (d : list (Z * V)) :
  dict_get k (dict_set k v d) = Some v.
Proof.
  induction d as [|[k0 v0] d IH]; simpl.
  - now rewrite Z.eqb_refl.
  - destruct (k =? k0) eqn:E; simpl; [now rewrite Z.eqb_refl|now rewrite E].
Qed.

Lemma dict_get_set_ne {V} (k k' : Z) (v : V) (d : list (Z * V)) :
  k' <> k -> dict_get k' (dict_set k v d) = dict_get k' d.
Proof.
  intros Hne. induction d as [|[k0 v0] d IH]; simpl.
  - apply Z.eqb_neq in Hne. now rewrite Hne.
  - destruct (k =? k0) eqn:E; simpl.
    + apply Z.eqb_eq in E. subst k0. apply Z.eqb_neq in Hne. now rewrite Hne.
    + now rewrite IH.
Qed.

Lemma alter_map {B} (g : Stream.t -> B) (f : Stream.t -> Stream.t) (i : nat)
    (l : list Stream.t) :
  (forall st, g (f st) = g st) -> map g (alter f i l) = map g l.
Proof.
  intros Hf. revert i. induction l as [|st l IH]; intros [|i]; simpl; try reflexivity.
  - now rewrite Hf.
  - f_equal. apply IH.
Qed.

Lemma foldl_alter_map {B} (g : Stream.t -> B) (f : Stream.t -> Stream.t) (l : list Ref) :
  (forall st, g (f st) = g st) ->
  forall h, map g (foldl (fun h stream => alter f stream h) h l) = map g h.
Proof.
  intros Hf. induction l as [|x l IH]; intros h; simpl; [reflexivity|].
  rewrite IH. now apply alter_map.
Qed.

Lemma initiated_app (s : H2ClientProtocol) (l : list Ref) (c : list StreamCall) :
  calls s = c ++ map Call_initiate_request l ->
  initiated s
  = omap (fun c => match c with Call_initiate_request x => Some x | _ => None end) c ++ l.
Proof.
  intros H. unfold initiated. rewrite H, omap_app. f_equal. clear H.
  induction l as [|x l IH]; simpl; [reflexivity|]. f_equal. exact IH.
Qed.

(** [_new_stream], field by field. *)
Lemma _new_stream_effect (r : Request) (s : H2ClientProtocol) :
  exists s1, _new_stream r s = (Return (length (objects s)), s1) /\
    streams s1 = dict_set (Count.next_value (_stream_id_generator s))
                   (length (objects s)) (streams s) /\
    objects s1 = objects s ++ [Stream.new (Count.next_value (_stream_id_generator s)) r] /\
    _stream_id_generator s1
    = Count.mk (Count.next_value (_stream_id_generator s) + Count.step (_stream_id_generator s))
               (Count.step (_stream_id_generator s)) /\
    _pending_request_stream_pool s1 = _pending_request_stream_pool s /\
    calls s1 = calls s /\
    _active_streams s1 = _active_streams s /\
    allowed_max_concurrent_streams s1 = allowed_max_concurrent_streams s /\
    h2_connected s1 = h2_connected s.
Proof.
  unfold _new_stream, bind, gets, modify, new_stream_object, stream_stream_id, gets. simpl.
  eexists. split; [reflexivity|]. simpl. split; [|repeat split].
  now rewrite lookup_app_r, Nat.sub_diag by lia.
Qed.

(** What [request] does with a [Request]. *)
Lemma request_effect (r : Request) (s : H2ClientProtocol) :
  let id := Count.next_value (_stream_id_generator s) in
  let stream := length (objects s) in
  let s' := snd (request (PyRequest r) s) in
  fst (request (PyRequest r) s) = Return stream /\
  dict_get id (streams s') = Some stream /\
  (forall k, k <> id -> dict_get k (streams s') = dict_get k (streams s)) /\
  map stream_data (objects s') = map stream_data (objects s) ++ [stream_data (Stream.new id r)] /\
  initiated s' ++ _pending_request_stream_pool s'
  = initiated s ++ _pending_request_stream_pool s ++ [stream].
Proof.
  intros id stream s'. subst id stream s'.
  destruct (_new_stream_effect r s) as (s1 & Hnew & Hs1 & Ho1 & _ & Hp1 & Hc1 & _).
  set (s2 := set_pending_request_stream_pool
               (_pending_request_stream_pool s1 ++ [length (objects s)]) s1).
  destruct (_send_pending_requests_spec s2)
    as (s3 & Hrun & Hp3 & _ & Hc3 & Ho3 & _ & _ & Hs3 & _).
  assert (Hreq : request (PyRequest r) s = (Return (length (objects s)), s3)).
  { unfold request. rewrite (bind_return _ _ _ _ _ Hnew).
    unfold bind at 1, modify at 1. fold s2.
    now rewrite (bind_return _ _ _ _ _ Hrun). }
  rewrite Hreq. simpl fst. simpl snd.
  rewrite Hs3. subst s2. simpl streams. rewrite Hs1.
  split; [reflexivity|]. split; [apply dict_get_set_eq|].
  split; [intros k Hk; now apply dict_get_set_ne|]. split.
  - rewrite Ho3. rewrite foldl_alter_map by reflexivity.
    simpl objects. rewrite Ho1. apply map_app.
  - rewrite (initiated_app s3 _ _ Hc3), Hp3. simpl calls. simpl _pending_request_stream_pool.
    rewrite Hc1, Hp1. fold (initiated s). rewrite <- app_assoc. f_equal.
    apply take_drop.
Qed.

(** X3: [request] with a [Request] returns the handle of a new stream,
    registered under the id the generator hands out and holding that
    request; the other keys of the registry keep their streams, the
    objects created before keep their data, and the new stream is last in
    line: the streams initiated so far followed by the waiting ones are
    what they were, followed by the new stream. *)
Theorem request_registers_and_queues (r : Request) (s : H2ClientProtocol) :
  let id := Count.next_value (_stream_id_generator s) in
  let stream := length (objects s) in
  let s' := snd (request (PyRequest r) s) in
  fst (request (PyRequest r) s) = Return stream /\
  dict_get id (streams s') = Some stream /\
  (forall k, k <> id -> dict_get k (streams s') = dict_get k (streams s)) /\
  map stream_data (objects s') = map stream_data (objects s) ++ [stream_data (Stream.new id r)] /\
  initiated s' ++ _pending_request_stream_pool s'
  = initiated s ++ _pending_request_stream_pool s ++ [stream].
Proof. apply request_effect. Qed.

(** ** First come, first served *)

Lemma log_call_keeps_line (c : StreamCall) :
  match c with Call_initiate_request _ => False | _ => True end ->
  keeps fifo_view (log_call c).
Proof.
  intros Hc s. unfold fifo_view, line, initiated, log_call, modify. simpl.
  rewrite omap_app. destruct c; try contradiction; simpl; now rewrite app_nil_r.
Qed.

Lemma update_stream_keeps_line (f : Stream.t -> Stream.t) (stream : Ref) :
  keeps fifo_view (update_stream f stream).
Proof.
  intros s. unfold fifo_view, line, initiated, update_stream, modify. simpl.
  now rewrite length_alter.
Qed.

Lemma pending_body_keeps_line : keeps fifo_view pending_body.
Proof.
  intros s. destruct (_pending_request_stream_pool s) as [|stream q] eqn:Hq.
  - unfold pending_body, bind, modify, pool_popleft, bind, gets. simpl. rewrite Hq.
    simpl. unfold fifo_view, line, initiated. simpl. now rewrite Hq.
  - destruct (pending_body_run s stream q Hq) as (s1 & -> & Hq1 & _ & Hc1 & Ho1 & _).
    simpl. unfold fifo_view, line, initiated.
    rewrite Hq1, Hc1, Ho1, Hq, omap_app, length_alter. simpl.
    now rewrite <- app_assoc.
Qed.

Ltac keeps_line_step :=
  lazymatch goal with
  | |- keeps fifo_view pending_body => apply pending_body_keeps_line
  | |- keeps fifo_view (log_call _) => apply log_call_keeps_line; exact I
  | |- keeps fifo_view (update_stream _ _) => apply update_stream_keeps_line
  | |- keeps fifo_view (conn_data_to_send) => intros ?; reflexivity
  | |- _ => keeps_step
  end.

Lemma handle_event_keeps_line (event : Event) : keeps fifo_view (handle_event event).
Proof. repeat keeps_line_step. Qed.

Lemma dataReceived_keeps_line receive_data (data : bytes) :
  keeps fifo_view (dataReceived receive_data data).
Proof.
  unfold dataReceived. apply keeps_bind; [apply keeps_ret|]. intros _.
  apply keeps_try.
  - apply keeps_bind.
    + intros s. unfold conn_receive_data. now destruct (receive_data data (conn s)).
    + intros events. apply keeps_for_each, handle_event_keeps_line.
  - intros e h He. destruct e; inversion He; subst. repeat keeps_line_step.
  - repeat keeps_line_step.
Qed.

Lemma timeoutConnection_keeps_line : keeps fifo_view timeoutConnection.
Proof. repeat keeps_line_step. Qed.

(** A request joins the end of the line. *)
Lemma request_line (o : PyObject) (s : H2ClientProtocol) :
  fifo_view (snd (request o s))
  = match o with
    | PyRequest _ => (line s ++ [length (objects s)], S (length (objects s)))
    | PyOther _ => fifo_view s
    end.
Proof.
  destruct o as [r|q]; [|reflexivity].
  destruct (request_effect r s) as (_ & _ & _ & Ho & Hl).
  unfold fifo_view, line. rewrite Hl, <- app_assoc. f_equal.
  apply (f_equal length) in Ho. rewrite length_app, !length_map in Ho.
  change (length (objects (snd (request (PyRequest r) s)))
          = (length (objects s) + 1)%nat) in Ho.
  rewrite Ho. lia.
Qed.

(** Losing the connection empties the pool and initiates nothing. *)
Lemma connectionLost_line (reason : Failure) (s : H2ClientProtocol) :
  let s' := snd (connectionLost reason s) in
  length (objects s') = length (objects s) /\
  (line s' = line s \/ line s' = initiated s).
Proof.
  assert (Hinit : forall errors h vals c,
            omap (fun c => match c with Call_initiate_request x => Some x | _ => None end)
                 (c ++ map (teardown_call errors h) vals)
            = omap (fun c => match c with Call_initiate_request x => Some x | _ => None end) c).
  { intros errors h vals c. rewrite omap_app.
    replace (omap _ (map (teardown_call errors h) vals)) with (@nil Ref);
      [apply app_nil_r|].
    induction vals as [|x vals IH]; [reflexivity|]. simpl.
    unfold teardown_call at 1. now destruct (from_option _ _ _). }
  simpl.
  assert (Hcases : deferred_pending s \/
            exists d, _conn_lost_deferred s = Some d /\ Deferred.called d = true).
  { unfold deferred_pending. destruct (_conn_lost_deferred s) as [d|]; [|now left].
    destruct (Deferred.called d) eqn:E; [right; eauto|now left]. }
  destruct Hcases as [Hd|(d & Ed & Hc)].
  - destruct (connectionLost_run reason s Hd)
      as (s' & -> & _ & _ & _ & Hp & _ & Hcalls & Ho & _).
    simpl. split; [rewrite Ho; apply foldl_alter_length|]. right.
    unfold line, initiated. rewrite Hp, Hcalls, Hinit. apply app_nil_r.
  - destruct (connectionLost_fired reason s d Ed Hc)
      as (s' & -> & _ & _ & _ & Hp & _ & Hcalls & Ho).
    simpl. split; [now rewrite Ho|]. left. unfold line, initiated. now rewrite Hp, Hcalls.
Qed.

Lemma fifo_ok_append (l : list Ref) (n : nat) :
  StronglySorted lt l /\ Forall (fun x => (x < n)%nat) l ->
  StronglySorted lt (l ++ [n]) /\ Forall (fun x => (x < S n)%nat) (l ++ [n]).
Proof.
  intros [Hs Hf]. split.
  - apply StronglySorted_app_2; [|assumption|repeat constructor].
    intros x1 x2 H1 H2. apply list_elem_of_singleton in H2. subst x2.
    rewrite Forall_forall in Hf. now apply Hf.
  - apply Forall_app. split; [|repeat constructor].
    eapply Forall_impl; [exact Hf|]. simpl. lia.
Qed.

Lemma run_op_fifo_ok receive_data (op : Op) : preserves fifo_ok (run_op receive_data op).
Proof.
  assert (Hview : forall s s', fifo_view s' = fifo_view s -> fifo_ok s -> fifo_ok s').
  { unfold fifo_view, fifo_ok. intros s s' H. injection H as -> ->. auto. }
  intros s Hok. destruct op as [o|data| |reason|b]; unfold run_op.
  - rewrite snd_bind_ret. pose proof (request_line o s) as H.
    set (s' := snd (request o s)) in *. clearbody s'. destruct o as [r|q].
    + unfold fifo_view in H. injection H as Hl Hn. unfold fifo_ok. rewrite Hl, Hn.
      now apply fifo_ok_append.
    + now apply (Hview s).
  - apply (Hview s); [apply dataReceived_keeps_line|assumption].
  - apply (Hview s); [apply timeoutConnection_keeps_line|assumption].
  - destruct (connectionLost_line reason s) as [Hn [Hl|Hl]];
      unfold fifo_ok; rewrite Hn, Hl; [exact Hok|].
    destruct Hok as [Hs Hf]. unfold line in Hs, Hf. split.
    + now apply StronglySorted_app_1_l in Hs.
    + now apply Forall_app in Hf as [Hf _].
  - exact Hok.
Qed.

(** X4: whatever the steps and whatever the codec, streams are initiated
    in the order in which they were created, each at most once, and no
    waiting stream is overtaken: the streams initiated so far followed by
    the streams waiting in the pool always form a strictly increasing
    list of existing streams. *)
Theorem admission_never_reorders
    (receive_data : bytes -> H2Connection.t -> Result (list Event) * H2Connection.t)
    (ops : list Op) (uri0 : string) (maxsize warnsize : Z)
    (conn_lost_deferred : option Deferred.t)
    (conn0 : H2Connection.t) (transport0 : Transport.t) :
  let s := run_ops receive_data ops
             (init uri0 maxsize warnsize conn_lost_deferred conn0 transport0) in
  StronglySorted lt (initiated s ++ _pending_request_stream_pool s) /\
  Forall (fun stream => (stream < length (objects s))%nat)
         (initiated s ++ _pending_request_stream_pool s) /\
  NoDup (initiated s ++ _pending_request_stream_pool s).
Proof.
  intros s.
  assert (H : forall s0, fifo_ok s0 -> fifo_ok (run_ops receive_data ops s0)).
  { induction ops as [|op ops IH]; intros s0 Hs0; simpl; [assumption|].
    apply IH. now apply run_op_fifo_ok. }
  assert (Hok : fifo_ok s) by (apply H; split; constructor).
  destruct Hok as [Hs Hf]. unfold line in Hs, Hf.
  split; [exact Hs|]. split; [exact Hf|].
  clear -Hs. induction Hs as [|x l Hs IH Hx]; constructor; [|assumption].
  intros Hin. rewrite Forall_forall in Hx. specialize (Hx x Hin). lia.
Qed.

Lemma run_op_line receive_data (op : Op) (s : H2ClientProtocol) :
  keeps_connection op = true ->
  line s = seq 0 (length (objects s)) ->
  line (snd (run_op receive_data op s))
  = seq 0 (length (objects (snd (run_op receive_data op s)))).
Proof.
  intros Hop Hs.
  assert (Hview : forall s', fifo_view s' = fifo_view s ->
                    line s' = seq 0 (length (objects s'))).
  { unfold fifo_view. intros s' H. injection H as -> ->. exact Hs. }
  destruct op as [o|data| |reason|b]; unfold run_op; try discriminate.
  - rewrite snd_bind_ret. pose proof (request_line o s) as H.
    set (s' := snd (request o s)) in *. clearbody s'. destruct o as [r|q].
    + unfold fifo_view in H. injection H as -> ->. rewrite seq_S. simpl. now rewrite Hs.
    + now apply Hview.
  - apply Hview, dataReceived_keeps_line.
  - apply Hview, timeoutConnection_keeps_line.
  - exact Hs.
Qed.

(** X5: as long as the connection is not lost, no stream is dropped from
    the line and none is initiated twice: whatever the codec, the streams
    initiated so far followed by the streams waiting in the pool are all
    the streams created, in the order of their creation. *)
Theorem no_stream_is_dropped
    (receive_data : bytes -> H2Connection.t -> Result (list Event) * H2Connection.t)
    (ops : list Op) (uri0 : string) (maxsize warnsize : Z)
    (conn_lost_deferred : option Deferred.t)
    (conn0 : H2Connection.t) (transport0 : Transport.t) :
  forallb keeps_connection ops = true ->
  let s := run_ops receive_data ops
             (init uri0 maxsize warnsize conn_lost_deferred conn0 transport0) in
  initiated s ++ _pending_request_stream_pool s = seq 0 (length (objects s)).
Proof.
  intros Hops s.
  assert (H : forall s0, line s0 = seq 0 (length (objects s0)) ->
                line (run_ops receive_data ops s0)
                = seq 0 (length (objects (run_ops receive_data ops s0)))).
  { clear s. induction ops as [|op ops IH]; intros s0 Hs0; simpl; [assumption|].
    simpl in Hops. apply andb_prop in Hops as [Hop Hops].
    apply (IH Hops). now apply run_op_line. }
  apply H. reflexivity.
Qed.

(** Three requests, then the settings are acknowledged with room for two
    streams: streams 0 and 1 are initiated, stream 2 waits. *)
Lemma no_stream_is_dropped_witness :
  let s := run_ops example_codec
             [OpRequest (PyRequest example_request); OpRequest (PyRequest example_request);
              OpRequest (PyRequest example_request); OpDataReceived [x01]]
             (init "https://example.com" 0 0 None example_conn example_transport) in
  initiated s = [0; 1]%nat /\ _pending_request_stream_pool s = [2]%nat /\
  initiated s ++ _pending_request_stream_pool s = seq 0 (length (objects s)).
Proof.
  intros s. split; [vm_compute; reflexivity|]. split; [vm_compute; reflexivity|].
  exact (no_stream_is_dropped example_codec
           [OpRequest (PyRequest example_request); OpRequest (PyRequest example_request);
            OpRequest (PyRequest example_request); OpDataReceived [x01]]
           "https://example.com" 0 0 None example_conn example_transport eq_refl).
Defined.

(** ** The end of one stream *)

Lemma dict_pop_get (k : Z) (v : Ref) (d : list (Z * Ref)) :
  dict_get k d = Some v ->
  exists d', dict_pop k d = Some (v, d') /\
    (forall k', k' <> k -> dict_get k' d' = dict_get k' d) /\
    (NoDup (dict_keys d) -> dict_get k d' = None).
Proof.
  induction d as [|[k0 v0] d IH]; simpl; [discriminate|].
  destruct (k =? k0) eqn:E.
  - intros [= ->]. apply Z.eqb_eq in E. subst k0. exists d. split; [reflexivity|]. split.
    + intros k' Hk'. apply Z.eqb_neq in Hk'. now rewrite Hk'.
    + intros Hnd. apply NoDup_cons in Hnd as [Hk _].
      clear -Hk. induction d as [|[k1 v1] d IHd]; simpl; [reflexivity|].
      simpl in Hk. apply not_elem_of_cons in Hk as [Hne Hk].
      apply Z.eqb_neq in Hne. rewrite Hne. now apply IHd.
  - intros Hget. destruct (IH Hget) as (d' & -> & Hother & Hgone).
    exists ((k0, v0) :: d'). split; [reflexivity|]. split.
    + intros k' Hk'. simpl. destruct (k' =? k0); [reflexivity|]. now apply Hother.
    + intros Hnd. apply NoDup_cons in Hnd as [_ Hnd]. simpl. rewrite E. now apply Hgone.
Qed.

Lemma closed_app (c : list StreamCall) (l : list Ref) :
  omap (fun c => match c with Call_close x _ _ _ => Some x | _ => None end)
       (c ++ map Call_initiate_request l)
  = omap (fun c => match c with Call_close x _ _ _ => Some x | _ => None end) c.
Proof.
  rewrite omap_app.
  replace (omap _ (map Call_initiate_request l)) with (@nil Ref); [apply app_nil_r|].
  induction l as [|x l IH]; [reflexivity|exact IH].
Qed.

(** What popping a registered stream and closing it does. *)
Lemma pop_close_effect (reason : StreamCloseReason) (stream_id : Z) (stream : Ref)
    (st : Stream.t) (s : H2ClientProtocol) :
  dict_get stream_id (streams s) = Some stream ->
  NoDup (dict_keys (streams s)) ->
  objects s !! stream = Some st ->
  stream_open st ->
  let m := (x <- pop_stream stream_id ;; stream_close x reason [] true) in
  let s' := snd (m s) in
  fst (m s) = Return tt /\
  dict_get stream_id (streams s') = None /\
  (forall k, k <> stream_id -> dict_get k (streams s') = dict_get k (streams s)) /\
  closed s' = closed s ++ [stream] /\
  completion_of s' stream = Some (Stream.outcome reason [] st) /\
  (forall other, other <> stream -> completion_of s' other = completion_of s other) /\
  handle_event (DataReceived stream_id [] 0) s' = (Raise (KeyError stream_id), s').
Proof.
  intros Hget Hnd Hst [Hcr Hco] m s'. subst m s'.
  destruct (dict_pop_get _ _ _ Hget) as (d' & Hpop & Hother & Hgone).
  set (s2 := set_active_streams (_active_streams s - 1) (set_streams d' s)).
  destruct (_send_pending_requests_spec s2)
    as (s3 & Hrun & _ & _ & Hc3 & Ho3 & _ & _ & Hs3 & _).
  assert (Hm : (x <- pop_stream stream_id ;; stream_close x reason [] true) s
               = stream_close stream reason [] true s3).
  { unfold bind at 1, pop_stream. unfold bind at 1, gets at 1. rewrite Hpop.
    unfold bind at 1, modify at 1. unfold bind at 1, modify at 1. fold s2.
    now rewrite (bind_return _ _ _ _ _ Hrun). }
  rewrite Hm. clear Hm.
  assert (Hdata : map stream_data (objects s3) = map stream_data (objects s)).
  { rewrite Ho3. now rewrite foldl_alter_map by reflexivity. }
  assert (Hlook : forall x, stream_data <$> objects s3 !! x = stream_data <$> objects s !! x).
  { intros x. rewrite <- !list_lookup_fmap. change (?f <$> ?l) with (map f l).
    now rewrite Hdata. }
  unfold stream_close, bind, log_call, update_stream, modify. simpl fst. simpl snd.
  simpl streams. rewrite Hs3. simpl streams.
  split; [reflexivity|]. split; [now apply Hgone|]. split; [exact Hother|].
  split; [|split; [|split]].
  - unfold closed. simpl calls. rewrite omap_app, Hc3, closed_app. reflexivity.
  - unfold completion_of. simpl objects. rewrite list_lookup_alter_eq.
    specialize (Hlook stream). rewrite Hst in Hlook.
    destruct (objects s3 !! stream) as [st3|]; [|discriminate].
    simpl in Hlook. injection Hlook as H1 H2 H3 H4 H5 H6. simpl.
    unfold Stream.close. rewrite H5, Hcr. simpl.
    unfold Stream.outcome. now rewrite H3, H4.
  - intros other Hne. unfold completion_of. simpl objects.
    rewrite list_lookup_alter_ne by congruence.
    specialize (Hlook other).
    destruct (objects s3 !! other) as [a|], (objects s !! other) as [b|];
      simpl in *; try discriminate; [|reflexivity].
    now injection Hlook.
  - apply handle_event_unknown_id; [reflexivity|discriminate|].
    simpl streams. rewrite Hs3. now apply Hgone.
Qed.

(** X6: a [StreamReset] (or [StreamEnded]) event for a registered, open
    stream closes that stream and no other: the handler returns, the id
    leaves the registry while every other id keeps its stream, [close] is
    called on that stream alone, its completion is fulfilled with the
    failure [RESET] (with the accumulated response for [ENDED]), the
    completion of every other stream is what it was, and a later event
    naming the same id raises [KeyError]. *)
Theorem stream_reset_closes_only_that_stream
    (stream_id : Z) (stream : Ref) (st : Stream.t) (s : H2ClientProtocol) :
  dict_get stream_id (streams s) = Some stream ->
  NoDup (dict_keys (streams s)) ->
  objects s !! stream = Some st ->
  stream_open st ->
  (let s' := snd (stream_reset stream_id s) in
   fst (stream_reset stream_id s) = Return tt /\
   dict_get stream_id (streams s') = None /\
   (forall k, k <> stream_id -> dict_get k (streams s') = dict_get k (streams s)) /\
   closed s' = closed s ++ [stream] /\
   completion_of s' stream = Some (Failed RESET []) /\
   (forall other, other <> stream -> completion_of s' other = completion_of s other) /\
   handle_event (DataReceived stream_id [] 0) s' = (Raise (KeyError stream_id), s')) /\
  (let s' := snd (stream_ended stream_id s) in
   fst (stream_ended stream_id s) = Return tt /\
   dict_get stream_id (streams s') = None /\
   (forall k, k <> stream_id -> dict_get k (streams s') = dict_get k (streams s)) /\
   closed s' = closed s ++ [stream] /\
   completion_of s' stream
   = Some (Response (Stream.response_headers st) (Stream.response_body st)) /\
   (forall other, other <> stream -> completion_of s' other = completion_of s other) /\
   handle_event (DataReceived stream_id [] 0) s' = (Raise (KeyError stream_id), s')).
Proof.
  intros Hget Hnd Hst Hopen. split.
  - exact (pop_close_effect RESET stream_id stream st s Hget Hnd Hst Hopen).
  - exact (pop_close_effect ENDED stream_id stream st s Hget Hnd Hst Hopen).
Qed.

(** Streams 1 and 3 are open and stream 5 waits; stream 3 is reset. *)
Lemma stream_reset_closes_only_that_stream_witness :
  let s' := snd (stream_reset 3 example_busy_protocol) in
  dict_get 3 (streams example_busy_protocol) = Some 1%nat /\
  dict_get 3 (streams s') = None /\
  closed s' = closed example_busy_protocol ++ [1%nat] /\
  completion_of s' 1%nat = Some (Failed RESET []).
Proof.
  intros s'. subst s'.
  assert (Hobj : exists st, objects example_busy_protocol !! 1%nat = Some st /\ stream_open st).
  { eexists. split; [vm_compute; reflexivity|]. split; reflexivity. }
  destruct Hobj as (st & Hst & Hopen).
  assert (Hnd : NoDup (dict_keys (streams example_busy_protocol))).
  { apply (bool_decide_unpack _). vm_compute. exact I. }
  destruct (stream_reset_closes_only_that_stream 3 1%nat st example_busy_protocol
              eq_refl Hnd Hst Hopen) as [(_ & H2 & _ & H4 & H5 & _) _].
  split; [reflexivity|]. split; [exact H2|]. split; [exact H4|exact H5].
Defined.

(** ** Closing each stream once *)

Lemma log_call_keeps_closed (c : StreamCall) :
  match c with Call_close _ _ _ _ => False | _ => True end ->
  keeps close_view (log_call c).
Proof.
  intros Hc s. unfold close_view, closed, log_call, modify. simpl.
  rewrite omap_app. destruct c; try contradiction; simpl; now rewrite app_nil_r.
Qed.

Lemma update_stream_keeps_closed (f : Stream.t -> Stream.t) (stream : Ref) :
  keeps close_view (update_stream f stream).
Proof.
  intros s. unfold close_view, closed, update_stream, modify. simpl.
  now rewrite length_alter.
Qed.

Ltac keeps_closed_step :=
  lazymatch goal with
  | |- keeps close_view (log_call _) => apply log_call_keeps_closed; exact I
  | |- keeps close_view (update_stream _ _) => apply update_stream_keeps_closed
  | |- keeps close_view (conn_data_to_send) => intros ?; reflexivity
  | |- _ => keeps_step
  end.

Lemma _send_pending_requests_keeps_closed : keeps close_view _send_pending_requests.
Proof. repeat keeps_closed_step. Qed.

Lemma closed_ok_view (s s' : H2ClientProtocol) :
  close_view s' = close_view s -> closed_ok s -> closed_ok s'.
Proof. unfold close_view, closed_ok. intros H. injection H as -> -> ->. auto. Qed.

Lemma close_call_preserves (stream : Ref) reason errors (s : H2ClientProtocol) :
  closed_ok s -> (stream < length (objects s))%nat ->
  stream ∉ closed s -> stream ∉ dict_values (streams s) ->
  closed_ok (snd (stream_close stream reason errors true s)).
Proof.
  intros (Hnd & Hlt & Hndv & Hall) Hs Hnc Hnv.
  unfold closed_ok, closed, stream_close, bind, log_call, update_stream, modify. simpl.
  rewrite omap_app, length_alter. simpl. fold (closed s).
  split; [|split; [|split]].
  - apply NoDup_app. split; [assumption|]. split; [|apply NoDup_singleton].
    intros x Hx Hin. apply list_elem_of_singleton in Hin. now subst x.
  - apply Forall_app. split; [assumption|]. now repeat constructor.
  - assumption.
  - rewrite Forall_forall in *. intros x Hx. destruct (Hall x Hx) as [H1 H2].
    split; [assumption|]. intros Hin. apply elem_of_app in Hin as [Hin|Hin]; [contradiction|].
    apply list_elem_of_singleton in Hin. now subst x.
Qed.

Lemma pop_close_closed_ok (stream_id : Z) reason errors :
  preserves closed_ok
    (stream <- pop_stream stream_id ;; stream_close stream reason errors true).
Proof.
  intros s Hok. unfold bind at 1, pop_stream. unfold bind at 1, gets at 1.
  destruct (dict_pop stream_id (streams s)) as [[stream d']|] eqn:Hpop; [|exact Hok].
  destruct Hok as (Hnd & Hlt & Hndv & Hall).
  destruct (dict_pop_values _ _ _ _ Hpop Hndv) as (Hnd' & Hnotin & Hsub).
  assert (Hin : stream ∈ dict_values (streams s)).
  { clear -Hpop. revert d' Hpop.
    induction (streams s) as [|[k v] d IH]; intros d' Hpop; simpl in *; [discriminate|].
    destruct (stream_id =? k).
    - injection Hpop as <- _. apply elem_of_cons; now left.
    - destruct (dict_pop stream_id d) as [[x d'']|]; [|discriminate].
      injection Hpop as <- _. apply elem_of_cons; right. now apply (IH d''). }
  unfold bind at 1, modify at 1. unfold bind at 1, modify at 1. unfold bind at 1.
  set (s2 := set_active_streams _ _).
  assert (Hok2 : closed_ok s2).
  { split; [assumption|]. split; [assumption|]. split; [assumption|]. simpl.
    rewrite Forall_forall in Hall. rewrite Forall_forall.
    intros x Hx. apply Hall, Hsub, Hx. }
  rewrite Forall_forall in Hall. destruct (Hall stream Hin) as [Hs Hnc].
  destruct (_send_pending_requests_spec s2) as (s3 & Hrun & _).
  pose proof (_send_pending_requests_keeps_closed s2) as Hview. rewrite Hrun in *.
  simpl in Hview. unfold ret.
  pose proof (closed_ok_view s2 s3 Hview Hok2) as Hok3.
  unfold close_view in Hview. injection Hview as Hv1 Hv2 Hv3.
  apply close_call_preserves; [assumption| | |].
  - now rewrite Hv3.
  - now rewrite Hv2.
  - now rewrite Hv1.
Qed.

Lemma handle_event_closed_ok (event : Event) : preserves closed_ok (handle_event event).
Proof.
  assert (Hk : forall m : M unit, keeps close_view m -> preserves closed_ok m).
  { intros m H s Hs. eapply closed_ok_view; [apply H|assumption]. }
  destruct event; unfold handle_event;
    try (apply Hk; repeat keeps_closed_step; fail).
  - apply pop_close_closed_ok.
  - apply pop_close_closed_ok.
Qed.

Lemma request_closed_ok (o : PyObject) : preserves closed_ok (request o).
Proof.
  destruct o as [r|q]; [|now intros s].
  intros s (Hnd & Hlt & Hndv & Hall). unfold request.
  destruct (_new_stream_effect r s) as (s1 & Hnew & Hs1 & Ho1 & _ & _ & Hc1 & _).
  rewrite (bind_return _ _ _ _ _ Hnew).
  assert (Hfresh : length (objects s) ∉ dict_values (streams s)).
  { intros Hin. rewrite Forall_forall in Hall. destruct (Hall _ Hin). lia. }
  destruct (dict_set_values (Count.next_value (_stream_id_generator s))
              (length (objects s)) (streams s) Hndv Hfresh) as [Hnd1 Hsub].
  assert (Hcl : closed s1 = closed s) by (unfold closed; now rewrite Hc1).
  assert (Hlen : length (objects s1) = S (length (objects s))).
  { rewrite Ho1, length_app. simpl. lia. }
  assert (Hok1 : closed_ok s1).
  { unfold closed_ok. rewrite Hcl, Hlen, Hs1.
    rewrite Forall_forall in Hlt. rewrite Forall_forall in Hall. rewrite !Forall_forall.
    split; [assumption|]. split; [intros x Hx; specialize (Hlt x Hx); lia|].
    split; [assumption|]. intros x Hx. destruct (Hsub x Hx) as [->|Hin].
    - split; [lia|]. intros Hin. specialize (Hlt _ Hin). lia.
    - destruct (Hall x Hin). split; [lia|assumption]. }
  assert (Hrest : forall stream : Ref, keeps close_view
            (modify (fun s0 => set_pending_request_stream_pool
                                 (_pending_request_stream_pool s0 ++ [stream]) s0) ;;
             _send_pending_requests ;; ret stream)).
  { intros stream. repeat keeps_closed_step. }
  eapply closed_ok_view; [apply (Hrest _ s1)|exact Hok1].
Qed.

Lemma teardown_calls_closed (errors : list ConnLostError) (h : list Stream.t)
    (vals : list Ref) (c : list StreamCall) :
  omap (fun c => match c with Call_close x _ _ _ => Some x | _ => None end)
       (c ++ map (teardown_call errors h) vals)
  = omap (fun c => match c with Call_close x _ _ _ => Some x | _ => None end) c ++ vals.
Proof.
  rewrite omap_app. f_equal.
  induction vals as [|x vals IH]; [reflexivity|]. simpl.
  unfold teardown_call at 1. destruct (from_option _ _ _); simpl; f_equal; exact IH.
Qed.

Lemma connectionLost_closed_ok (reason : Failure) :
  preserves closed_ok (connectionLost reason).
Proof.
  intros s Hok.
  assert (Hcases : deferred_pending s \/
            exists d, _conn_lost_deferred s = Some d /\ Deferred.called d = true).
  { unfold deferred_pending. destruct (_conn_lost_deferred s) as [d|]; [|now left].
    destruct (Deferred.called d) eqn:E; [right; eauto|now left]. }
  destruct Hcases as [Hd|(d & Ed & Hc)].
  - destruct (connectionLost_run reason s Hd)
      as (s' & -> & _ & _ & Hs & _ & _ & Hcalls & Ho & _).
    destruct Hok as (Hnd & Hlt & Hndv & Hall). simpl.
    unfold closed_ok, closed. rewrite Hs, Hcalls, teardown_calls_closed, Ho.
    rewrite foldl_alter_length. fold (closed s).
    rewrite Forall_forall in Hlt. rewrite Forall_forall in Hall.
    split; [|split; [|split; constructor]].
    + apply NoDup_app. split; [assumption|]. split; [|assumption].
      intros x Hx Hin. now destruct (Hall x Hin).
    + apply Forall_forall. intros x Hx. apply elem_of_app in Hx as [Hx|Hx].
      * now apply Hlt.
      * now destruct (Hall x Hx).
  - destruct (connectionLost_fired reason s d Ed Hc)
      as (s' & -> & _ & _ & Hs & _ & _ & Hcalls & Ho).
    simpl. unfold closed_ok, closed. rewrite Hs, Hcalls, Ho. exact Hok.
Qed.

Lemma run_op_closed_ok receive_data (op : Op) :
  preserves closed_ok (run_op receive_data op).
Proof.
  assert (Hk : forall m : M unit, keeps close_view m -> preserves closed_ok m).
  { intros m H s Hs. eapply closed_ok_view; [apply H|assumption]. }
  destruct op; unfold run_op.
  - apply preserves_bind; [apply request_closed_ok|]. intros _. apply preserves_ret.
  - unfold dataReceived. apply preserves_bind; [apply preserves_ret|]. intros _.
    apply preserves_try.
    + apply preserves_bind.
      * intros s Hs. eapply closed_ok_view; [|exact Hs].
        unfold conn_receive_data. now destruct (receive_data data (conn s)).
      * intros events. apply preserves_for_each, handle_event_closed_ok.
    + intros e h He. destruct e; inversion He; subst. apply Hk. repeat keeps_closed_step.
    + apply Hk. repeat keeps_closed_step.
  - apply Hk. repeat keeps_closed_step.
  - apply connectionLost_closed_ok.
  - apply Hk. repeat keeps_closed_step.
Qed.

(** X7: whatever the steps and whatever the codec, the protocol calls
    [close] at most once on each stream, and a stream on which it has
    called [close] is no longer in the registry: every stream is removed
    from the registry before or when it is closed, so no event is ever
    dispatched to a closed stream through the registry. *)
Theorem every_stream_is_closed_at_most_once
    (receive_data : bytes -> H2Connection.t -> Result (list Event) * H2Connection.t)
    (ops : list Op) (uri0 : string) (maxsize warnsize : Z)
    (conn_lost_deferred : option Deferred.t)
    (conn0 : H2Connection.t) (transport0 : Transport.t) :
  let s := run_ops receive_data ops
             (init uri0 maxsize warnsize conn_lost_deferred conn0 transport0) in
  NoDup (closed s) /\
  (forall stream, stream ∈ dict_values (streams s) -> stream ∉ closed s) /\
  (forall stream, stream ∈ closed s -> (stream < length (objects s))%nat).
Proof.
  intros s.
  assert (H : forall s0, closed_ok s0 -> closed_ok (run_ops receive_data ops s0)).
  { induction ops as [|op ops IH]; intros s0 Hs0; simpl; [assumption|].
    apply IH. now apply run_op_closed_ok. }
  assert (Hok : closed_ok s).
  { apply H. unfold closed_ok, closed. simpl. repeat split; constructor. }
  destruct Hok as (Hnd & Hlt & _ & Hall).
  rewrite Forall_forall in Hlt. rewrite Forall_forall in Hall.
  split; [assumption|]. split; [|assumption].
  intros stream Hin. now destruct (Hall stream Hin).
Qed.

(** ** Failures on their way to the callers *)

Lemma teardown_after (s s1 : H2ClientProtocol) (causes : list ConnLostError)
    (reason : Failure) :
  registry_ok s -> deferred_pending s ->
  streams s1 = streams s -> objects s1 = objects s ->
  _conn_lost_deferred s1 = _conn_lost_deferred s ->
  _conn_lost_errors s1 = _conn_lost_errors s ++ causes ->
  teardown_delivers s s1 causes reason.
Proof.
  intros Hok Hd Hs Ho Hdef He.
  assert (Hok1 : registry_ok s1) by (unfold registry_ok; now rewrite Hs, Ho).
  assert (Hd1 : deferred_pending s1) by (unfold deferred_pending; now rewrite Hdef).
  unfold teardown_delivers.
  destruct (connectionLost_run reason s1 Hd1)
    as (s2 & -> & He2 & Hdef2 & _ & _ & _ & _ & Ho2 & _).
  simpl fst. simpl snd.
  assert (Hall : lost_errors reason s1
                 = _conn_lost_errors s ++ causes
                   ++ (if check_connectionDone reason then [] else [LostReason reason])).
  { unfold lost_errors. now rewrite He, <- app_assoc. }
  rewrite Hall in *.
  split; [reflexivity|]. split; [assumption|]. split; [now rewrite Hdef2, Hdef|].
  assert (Hin : forall stream, stream ∈ dict_values (streams s) ->
            completion_of s2 stream
            = Some (if sent s stream
                    then Failed CONNECTION_LOST
                           (_conn_lost_errors s ++ causes
                            ++ (if check_connectionDone reason then [] else [LostReason reason]))
                    else Failed INACTIVE [])).
  { intros stream Hi. rewrite <- Hs in Hi.
    destruct (teardown_completion _ s1 (objects s2) stream Hok1 Ho2 Hi) as [_ H].
    unfold completion_of. rewrite H. unfold sent. now rewrite Ho. }
  split; intros stream Hm; apply list_elem_of_filter in Hm as [Hsent Hi];
    rewrite (Hin stream Hi), Hsent; reflexivity.
Qed.

(** X8: the three connection-fatal paths hand their cause to the
    teardown.  After an idle timeout, after a [ConnectionTerminated]
    event, and after the codec rejected received bytes with a
    [ProtocolError], a following [connectionLost] fails every stream
    whose request was sent with [CONNECTION_LOST] and the causes
    accumulated before, that cause, and the reason of the loss when it is
    not a clean close, in this order; it fires the deferred with the same
    list and fails the streams that never sent their request as
    [INACTIVE]. *)
Theorem fatal_causes_reach_the_streams
    (receive_data : bytes -> H2Connection.t -> Result (list Event) * H2Connection.t)
    (reason : Failure) (s : H2ClientProtocol) :
  registry_ok s ->
  deferred_pending s ->
  teardown_delivers s (snd (timeoutConnection s)) [TimeoutError timeout_message] reason /\
  (forall error_code last_stream_id,
     teardown_delivers s
       (snd (handle_event (ConnectionTerminated error_code last_stream_id) s))
       [RemoteTerminatedConnection (ip_address (metadata s))
          (ConnectionTerminated error_code last_stream_id)]
       reason) /\
  (forall data msg,
     fst (receive_data data (conn s)) = Raise (ProtocolError msg) ->
     teardown_delivers s (snd (dataReceived receive_data data s))
       [CaughtError (ProtocolError msg)] reason).
Proof.
  intros Hok Hd. split; [|split].
  - apply teardown_after; try assumption; reflexivity.
  - intros error_code last_stream_id. apply teardown_after; try assumption; reflexivity.
  - intros data msg Hr. apply teardown_after; try assumption;
      unfold dataReceived, bind, resetTimeout, ret, try_except_finally, bind,
        conn_receive_data;
      destruct (receive_data data (conn s)) as [res c]; simpl in Hr; subst res;
      reflexivity.
Qed.

(** Two streams are open and one waits when the connection idles out and
    the transport then closes cleanly: the open streams fail with the
    timeout as the cause. *)
Lemma fatal_causes_reach_the_streams_witness :
  let s1 := snd (timeoutConnection example_busy_protocol) in
  let s2 := snd (connectionLost clean_close s1) in
  completion_of s2 0%nat = Some (Failed CONNECTION_LOST [TimeoutError timeout_message]) /\
  completion_of s2 2%nat = Some (Failed INACTIVE []).
Proof.
  intros s1 s2.
  destruct (fatal_causes_reach_the_streams example_codec clean_close example_busy_protocol
              (proj1 example_busy_protocol_ok) (proj2 example_busy_protocol_ok))
    as [(_ & _ & _ & Hk & Hm) _].
  split.
  - apply (Hk 0%nat). apply (bool_decide_unpack _). vm_compute. exact I.
  - apply (Hm 2%nat). apply (bool_decide_unpack _). vm_compute. exact I.
Defined.

(** ** The counter of active streams, where it is right *)

Lemma filter_true_ext (f g : Ref -> bool) (l : list Ref) :
  (forall x, x ∈ l -> f x = g x) ->
  filter (fun x => f x = true) l = filter (fun x => g x = true) l.
Proof.
  induction l as [|a l IH]; intros H; [reflexivity|].
  rewrite !filter_cons. rewrite (H a) by (apply elem_of_cons; now left).
  rewrite IH; [reflexivity|]. intros x Hx. apply H. apply elem_of_cons; now right.
Qed.

Lemma filter_true_flip (f g : Ref -> bool) (l : list Ref) (stream : Ref) :
  NoDup l -> stream ∈ l -> f stream = false -> g stream = true ->
  (forall x, x <> stream -> g x = f x) ->
  length (filter (fun x => g x = true) l) = S (length (filter (fun x => f x = true) l)).
Proof.
  intros Hnd Hin Hf Hg Hother. induction l as [|a l IH]; [inversion Hin|].
  apply NoDup_cons in Hnd as [Ha Hnd]. rewrite !filter_cons.
  destruct (decide (a = stream)) as [->|Hne].
  - rewrite Hf, Hg. rewrite decide_True by reflexivity. rewrite decide_False by discriminate.
    simpl. f_equal. f_equal. apply filter_true_ext.
    intros x Hx. apply Hother. intros ->. contradiction.
  - apply elem_of_cons in Hin as [->|Hin]; [contradiction|].
    rewrite (Hother a Hne). destruct (decide (f a = true)); simpl; rewrite (IH Hnd Hin);
      reflexivity.
Qed.

Lemma filter_true_remove (f : Ref -> bool) (l1 l2 : list Ref) (stream : Ref) :
  f stream = true ->
  length (filter (fun x => f x = true) (l1 ++ stream :: l2))
  = S (length (filter (fun x => f x = true) (l1 ++ l2))).
Proof.
  intros Hf. rewrite !filter_app, filter_cons, decide_True by assumption.
  rewrite !length_app. simpl. lia.
Qed.

Lemma dict_pop_split (k : Z) (v : Ref) (d d' : list (Z * Ref)) :
  dict_pop k d = Some (v, d') ->
  exists d1 d2, d = d1 ++ (k, v) :: d2 /\ d' = d1 ++ d2.
Proof.
  revert d'. induction d as [|[k0 v0] d IH]; intros d' H; simpl in H; [discriminate|].
  destruct (k =? k0) eqn:E.
  - injection H as <- <-. apply Z.eqb_eq in E. subst k0. now exists [], d.
  - destruct (dict_pop k d) as [[x d'']|]; [|discriminate]. injection H as <- <-.
    destruct (IH d'' eq_refl) as (d1 & d2 & -> & ->).
    now exists ((k0, v0) :: d1), d2.
Qed.

Lemma dict_set_fresh (k : Z) (v : Ref) (d : list (Z * Ref)) :
  k ∉ dict_keys d -> dict_set k v d = d ++ [(k, v)].
Proof.
  induction d as [|[k0 v0] d IH]; intros H; simpl; [reflexivity|].
  simpl in H. apply not_elem_of_cons in H as [Hne H].
  apply Z.eqb_neq in Hne. rewrite Hne. now rewrite IH.
Qed.

Lemma sent_map (s : H2ClientProtocol) (stream : Ref) :
  sent s stream = from_option id false (map Stream.request_sent (objects s) !! stream).
Proof.
  unfold sent. change (map ?f ?l) with (f <$> l). rewrite list_lookup_fmap.
  now destruct (objects s !! stream).
Qed.

Lemma counter_ok_view (s s' : H2ClientProtocol) :
  counter_view s' = counter_view s -> counter_ok s -> counter_ok s'.
Proof.
  unfold counter_view. intros H. injection H as Hs Hp Ha Ho Hg.
  assert (Hsent : forall x, sent s' x = sent s x).
  { intros x. now rewrite !sent_map, Ho. }
  assert (Hlen : length (objects s') = length (objects s)).
  { apply (f_equal length) in Ho. now rewrite !length_map in Ho. }
  assert (Hadm : admitted s' = admitted s).
  { unfold admitted. rewrite Hs. apply filter_true_ext. intros x _. apply Hsent. }
  unfold counter_ok. rewrite Hs, Hp, Ha, Hg, Hlen, Hadm.
  intros (H1 & H2 & H3 & H4 & H5 & H6 & H7). repeat split; try assumption.
  eapply Forall_impl; [exact H3|]. simpl. intros x [Hx1 Hx2].
  split; [assumption|]. now rewrite Hsent.
Qed.

Lemma preserves_while_cond (P : H2ClientProtocol -> Prop) fuel cond (body : M unit) :
  (forall s, P s -> cond s = true -> P (snd (body s))) ->
  preserves P (while_loop fuel cond body).
Proof.
  intros Hb. induction fuel as [|n IH]; intros s Hs; simpl; [assumption|].
  unfold bind at 1, gets at 1. destruct (cond s) eqn:Hc; [|assumption].
  unfold bind. specialize (Hb s Hs Hc).
  destruct (body s) as [[[]|e] s1]; simpl in Hb; [|assumption].
  now apply IH.
Qed.

Lemma pending_body_counter_ok (s : H2ClientProtocol) :
  counter_ok s -> pending_condition s = true -> counter_ok (snd (pending_body s)).
Proof.
  intros (Hndv & Hndp & Hpool & Hvalid & Hkeys & Hstep & Hact) Hc.
  destruct (pending_condition_true s Hc) as (stream & q & Hq & _ & _).
  assert (Hgen : keeps _stream_id_generator pending_body) by (repeat keeps_step).
  specialize (Hgen s).
  destruct (pending_body_run s stream q Hq) as (s1 & Hrun & Hq1 & Ha1 & _ & Ho1 & _ & _ & Hs1).
  rewrite Hrun in *. simpl in Hgen. simpl snd.
  rewrite Hq in Hndp, Hpool. apply NoDup_cons in Hndp as [Hnotin Hndq].
  apply Forall_cons in Hpool as [[Hin Hunsent] Hpoolq].
  assert (Hlt : (stream < length (objects s))%nat).
  { rewrite Forall_forall in Hvalid. now apply Hvalid. }
  assert (Hs_stream : sent s1 stream = true).
  { unfold sent. rewrite Ho1, list_lookup_alter_eq.
    destruct (lookup_lt_is_Some_2 (objects s) stream Hlt) as [st ->]. reflexivity. }
  assert (Hs_other : forall x, x <> stream -> sent s1 x = sent s x).
  { intros x Hx. unfold sent. rewrite Ho1, list_lookup_alter_ne by congruence. reflexivity. }
  unfold counter_ok. rewrite Hs1, Hq1, Ha1, Hgen, Ho1, length_alter.
  split; [assumption|]. split; [assumption|]. split; [|split; [assumption|]].
  - rewrite Forall_forall in Hpoolq. apply Forall_forall. intros x Hx.
    destruct (Hpoolq x Hx) as [H1 H2]. split; [assumption|].
    rewrite Hs_other; [assumption|]. intros ->. contradiction.
  - split; [assumption|]. split; [assumption|].
    unfold admitted. rewrite Hs1.
    rewrite (filter_true_flip (sent s) (sent s1) (dict_values (streams s)) stream
               Hndv Hin Hunsent Hs_stream Hs_other).
    unfold admitted in Hact. lia.
Qed.

Lemma _send_pending_requests_counter_ok : preserves counter_ok _send_pending_requests.
Proof.
  unfold _send_pending_requests. apply preserves_bind.
  - now intros s.
  - intros n. apply preserves_while_cond. exact pending_body_counter_ok.
Qed.

Lemma update_stream_keeps_counter (f : Stream.t -> Stream.t) (stream : Ref) :
  (forall st, Stream.request_sent (f st) = Stream.request_sent st) ->
  keeps counter_view (update_stream f stream).
Proof.
  intros Hf s. unfold counter_view, update_stream, modify. simpl.
  now rewrite alter_map.
Qed.

Lemma close_request_sent reason causes st :
  Stream.request_sent (Stream.close reason causes st) = Stream.request_sent st.
Proof. unfold Stream.close. now destruct (Stream.close_reason st). Qed.

Ltac keeps_counter_step :=
  lazymatch goal with
  | |- keeps counter_view (update_stream (Stream.close _ _) _) =>
      apply update_stream_keeps_counter; intros ?; apply close_request_sent
  | |- keeps counter_view (update_stream _ _) =>
      apply update_stream_keeps_counter; intros ?; reflexivity
  | |- keeps counter_view (conn_data_to_send) => intros ?; reflexivity
  | |- _ => keeps_step
  end.

Lemma stream_close_keeps_counter stream reason errors b :
  keeps counter_view (stream_close stream reason errors b).
Proof. repeat keeps_counter_step. Qed.

(** Popping a registered stream whose request was sent. *)
Lemma pop_counter_ok (stream_id : Z) (stream : Ref) (d' : list (Z * Ref))
    (s : H2ClientProtocol) :
  counter_ok s ->
  dict_pop stream_id (streams s) = Some (stream, d') ->
  sent s stream = true ->
  counter_ok (set_active_streams (_active_streams s - 1) (set_streams d' s)).
Proof.
  intros (Hndv & Hndp & Hpool & Hvalid & Hkeys & Hstep & Hact) Hpop Hsent.
  destruct (dict_pop_split _ _ _ _ Hpop) as (d1 & d2 & Hd & ->).
  unfold counter_ok, admitted. simpl streams. simpl _pending_request_stream_pool.
  simpl _active_streams. simpl _stream_id_generator.
  change (objects (set_active_streams (_active_streams s - 1) (set_streams (d1 ++ d2) s)))
    with (objects s).
  replace (sent (set_active_streams (_active_streams s - 1) (set_streams (d1 ++ d2) s)))
    with (sent s) by reflexivity.
  unfold admitted in Hact. rewrite Hd in Hndv, Hpool, Hvalid, Hkeys, Hact.
  unfold dict_values, dict_keys in *.
  rewrite map_app in Hndv, Hpool, Hvalid, Hkeys, Hact. rewrite !map_app.
  simpl in Hndv, Hpool, Hvalid, Hkeys, Hact.
  rewrite (filter_true_remove (sent s) _ _ stream Hsent) in Hact.
  apply NoDup_app in Hndv as (Hnd1 & Hdisj & Hnd2).
  apply NoDup_cons in Hnd2 as [Hn2 Hnd2].
  apply Forall_app in Hvalid as [Hv1 Hv2]. apply Forall_cons in Hv2 as [_ Hv2].
  apply Forall_app in Hkeys as [Hk1 Hk2]. apply Forall_cons in Hk2 as [_ Hk2].
  split; [|split; [assumption|split; [|split; [|split; [|split; [assumption|lia]]]]]].
  - apply NoDup_app. split; [assumption|]. split; [|assumption].
    intros x Hx Hin. apply (Hdisj x Hx). apply elem_of_cons; now right.
  - eapply Forall_impl; [exact Hpool|]. simpl. intros x [Hx Hux]. split; [|assumption].
    apply elem_of_app in Hx as [Hx|Hx]; [apply elem_of_app; now left|].
    apply elem_of_cons in Hx as [->|Hx]; [congruence|]. apply elem_of_app; now right.
  - apply Forall_app; now split.
  - apply Forall_app; now split.
Qed.

Lemma dict_pop_Some_get (k : Z) (v : Ref) (d d' : list (Z * Ref)) :
  dict_pop k d = Some (v, d') -> dict_get k d = Some v.
Proof.
  revert d'. induction d as [|[k0 v0] d IH]; intros d' H; simpl in *; [discriminate|].
  destruct (k =? k0); [now injection H as -> _|].
  destruct (dict_pop k d) as [[x d'']|]; [|discriminate].
  injection H as <- _. now apply (IH d'').
Qed.

Lemma pop_close_counter_ok (stream_id : Z) reason (s : H2ClientProtocol) :
  counter_ok s ->
  (forall stream, dict_get stream_id (streams s) = Some stream -> sent s stream = true) ->
  counter_ok (snd ((x <- pop_stream stream_id ;; stream_close x reason [] true) s)).
Proof.
  intros Hok Hsent. unfold bind at 1, pop_stream. unfold bind at 1, gets at 1.
  destruct (dict_pop stream_id (streams s)) as [[stream d']|] eqn:Hpop; [|exact Hok].
  pose proof (pop_counter_ok stream_id stream d' s Hok Hpop
                (Hsent stream (dict_pop_Some_get _ _ _ _ Hpop))) as Hok2.
  unfold bind at 1, modify at 1. unfold bind at 1, modify at 1. unfold bind at 1.
  set (s2 := set_active_streams _ _) in *.
  destruct (_send_pending_requests_spec s2) as (s3 & Hrun & _).
  pose proof (_send_pending_requests_counter_ok s2 Hok2) as Hok3.
  rewrite Hrun in *. simpl in Hok3. unfold ret.
  eapply counter_ok_view; [apply stream_close_keeps_counter|exact Hok3].
Qed.

Lemma handle_event_counter_ok (event : Event) (s : H2ClientProtocol) :
  counter_ok s ->
  (forall stream_id stream,
     ended_stream_id event = Some stream_id ->
     dict_get stream_id (streams s) = Some stream -> sent s stream = true) ->
  counter_ok (snd (handle_event event s)).
Proof.
  intros Hok Hended.
  assert (Hk : forall m : M unit, keeps counter_view m -> counter_ok (snd (m s))).
  { intros m H. eapply counter_ok_view; [apply H|assumption]. }
  destruct event; unfold handle_event;
    try (apply Hk; repeat keeps_counter_step; fail).
  - apply pop_close_counter_ok; [assumption|]. intros stream. now apply Hended.
  - apply pop_close_counter_ok; [assumption|]. intros stream. now apply Hended.
  - revert s Hok Hended Hk. intros s Hok _ _. revert s Hok.
    change (preserves counter_ok settings_acknowledged).
    unfold settings_acknowledged. apply preserves_bind.
    + intros s Hs. eapply counter_ok_view; [|exact Hs]. reflexivity.
    + intros _. apply preserves_bind; [apply _send_pending_requests_counter_ok|].
      intros _ s Hs. eapply counter_ok_view; [|exact Hs]. reflexivity.
Qed.

Lemma request_counter_ok (o : PyObject) : preserves counter_ok (request o).
Proof.
  destruct o as [r|q]; [|now intros s].
  intros s (Hndv & Hndp & Hpool & Hvalid & Hkeys & Hstep & Hact). unfold request.
  destruct (_new_stream_effect r s) as (s1 & Hnew & Hs1 & Ho1 & Hg1 & Hp1 & _ & Ha1 & _).
  rewrite (bind_return _ _ _ _ _ Hnew).
  unfold bind at 1, modify at 1.
  set (n := length (objects s)) in *.
  set (s2 := set_pending_request_stream_pool _ s1).
  rewrite Forall_forall in Hvalid. rewrite Forall_forall in Hkeys.
  rewrite Forall_forall in Hpool.
  assert (Hfresh : Count.next_value (_stream_id_generator s) ∉ dict_keys (streams s)).
  { intros Hin. specialize (Hkeys _ Hin). lia. }
  rewrite (dict_set_fresh _ _ _ Hfresh) in Hs1.
  assert (Hn_values : n ∉ dict_values (streams s)).
  { intros Hin. specialize (Hvalid _ Hin). lia. }
  assert (Hn_pool : n ∉ _pending_request_stream_pool s).
  { intros Hin. destruct (Hpool _ Hin) as [Hv _]. contradiction. }
  assert (Hsent_old : forall x, (x < n)%nat -> sent s2 x = sent s x).
  { intros x Hx. unfold sent. simpl objects. rewrite Ho1, lookup_app_l by exact Hx.
    reflexivity. }
  assert (Hsent_new : sent s2 n = false).
  { unfold sent. simpl objects. rewrite Ho1, lookup_app_r by (unfold n; lia).
    unfold n. now rewrite Nat.sub_diag. }
  assert (Hok2 : counter_ok s2).
  { unfold counter_ok, admitted. simpl streams. simpl _pending_request_stream_pool.
    simpl _active_streams. simpl _stream_id_generator. simpl objects.
    rewrite Hs1, Hp1, Ha1, Hg1, Ho1. unfold dict_values, dict_keys. rewrite !map_app. simpl.
    fold (dict_values (streams s)). fold (dict_keys (streams s)).
    split; [|split; [|split; [|split; [|split; [|split]]]]].
    - apply NoDup_app. split; [assumption|]. split; [|apply NoDup_singleton].
      intros x Hx Hin. apply list_elem_of_singleton in Hin. now subst x.
    - apply NoDup_app. split; [assumption|]. split; [|apply NoDup_singleton].
      intros x Hx Hin. apply list_elem_of_singleton in Hin. now subst x.
    - apply Forall_app. split.
      + apply Forall_forall. intros x Hx. destruct (Hpool x Hx) as [Hv Hu].
        split; [apply elem_of_app; now left|]. rewrite Hsent_old; [assumption|].
        now apply Hvalid.
      + repeat constructor; [|assumption]. apply elem_of_app; right. now constructor.
    - rewrite length_app. simpl. apply Forall_app. split.
      + apply Forall_forall. intros x Hx. specialize (Hvalid x Hx). lia.
      + repeat constructor. fold n. lia.
    - apply Forall_app. split.
      + apply Forall_forall. intros x Hx. specialize (Hkeys x Hx). lia.
      + repeat constructor. lia.
    - assumption.
    - rewrite filter_app, filter_cons, decide_False by (rewrite Hsent_new; discriminate).
      rewrite filter_nil, app_nil_r.
      rewrite (filter_true_ext (sent s2) (sent s) (dict_values (streams s))).
      + exact Hact.
      + intros x Hx. apply Hsent_old. now apply Hvalid. }
  apply preserves_bind; [apply _send_pending_requests_counter_ok| |exact Hok2].
  intros _. apply preserves_ret.
Qed.

(** X9: outside the loss of the connection the counter is right.  A
    fresh protocol satisfies the bookkeeping invariant [counter_ok], in
    which [_active_streams] is the number of registered streams whose
    request was sent; [request], the idle timeout and the dispatch of
    every event keep it, provided a [StreamEnded] or [StreamReset] event
    names, if a registered stream at all, one whose request was sent (as
    a codec that follows the protocol does).  In particular the counter
    is then never negative. *)
Theorem counter_counts_the_admitted_streams :
  (forall uri0 maxsize warnsize d conn0 transport0,
     counter_ok (init uri0 maxsize warnsize d conn0 transport0)) /\
  (forall o, preserves counter_ok (request o)) /\
  preserves counter_ok timeoutConnection /\
  (forall event s,
     counter_ok s ->
     (forall stream_id stream,
        ended_stream_id event = Some stream_id ->
        dict_get stream_id (streams s) = Some stream -> sent s stream = true) ->
     counter_ok (snd (handle_event event s))) /\
  (forall s, counter_ok s ->
     _active_streams s = Z.of_nat (length (admitted s)) /\ 0 <= _active_streams s).
Proof.
  split; [|split; [|split; [|split]]].
  - intros. unfold counter_ok, admitted. simpl. repeat split; try constructor; lia.
  - exact request_counter_ok.
  - intros s Hs. eapply counter_ok_view; [|exact Hs].
    assert (H : keeps counter_view timeoutConnection) by (repeat keeps_counter_step).
    apply H.
  - exact handle_event_counter_ok.
  - intros s (_ & _ & _ & _ & _ & _ & Hact). split; [exact Hact|lia].
Qed.

(** ** Before and after the settings are acknowledged *)

(** X10: a request submitted while the connection is not ready (the
    transport is not connected or the settings are not acknowledged) is
    only queued: it joins the tail of the pool, nothing is initiated and
    the counter does not move.  When the acknowledgement of the settings
    arrives on a connected transport, the waiting streams are admitted
    without being submitted again: the first
    min(waiting, allowed - active) streams of the pool are initiated in
    order, and the peer certificate is recorded in the metadata. *)
Theorem requests_wait_for_the_settings (s : H2ClientProtocol) :
  (forall r, h2_connected s = false ->
     let s' := snd (request (PyRequest r) s) in
     fst (request (PyRequest r) s) = Return (length (objects s)) /\
     _pending_request_stream_pool s' = _pending_request_stream_pool s ++ [length (objects s)] /\
     initiated s' = initiated s /\
     _active_streams s' = _active_streams s /\
     sent s' (length (objects s)) = false) /\
  (Transport.connected (transport s) = true ->
     let k := Nat.min (length (_pending_request_stream_pool s))
                (Z.to_nat (allowed_max_concurrent_streams s - _active_streams s)) in
     let s' := snd (settings_acknowledged s) in
     fst (settings_acknowledged s) = Return tt /\
     _settings_acknowledged s' = true /\
     initiated s' = initiated s ++ take k (_pending_request_stream_pool s) /\
     _pending_request_stream_pool s' = drop k (_pending_request_stream_pool s) /\
     _active_streams s' = _active_streams s + Z.of_nat k /\
     certificate (metadata s')
     = Some (mkCertificate (Transport.peer_certificate (transport s)))).
Proof.
  split.
  - intros r Hnot s'. subst s'.
    destruct (_new_stream_effect r s)
      as (s1 & Hnew & _ & Ho1 & _ & Hp1 & Hc1 & Ha1 & Hl1 & Hh1).
    set (s2 := set_pending_request_stream_pool
                 (_pending_request_stream_pool s1 ++ [length (objects s)]) s1).
    destruct (_send_pending_requests_spec s2)
      as (s3 & Hrun & Hp3 & Ha3 & Hc3 & Ho3 & _).
    assert (Hreq : request (PyRequest r) s = (Return (length (objects s)), s3)).
    { unfold request. rewrite (bind_return _ _ _ _ _ Hnew).
      unfold bind at 1, modify at 1. fold s2.
      now rewrite (bind_return _ _ _ _ _ Hrun). }
    assert (Hk : admission_count s2 = 0%nat).
    { unfold admission_count.
      replace (h2_connected s2) with (h2_connected s1) by reflexivity.
      now rewrite Hh1, Hnot. }
    rewrite Hreq. simpl fst. simpl snd. rewrite Hk in *. simpl in Hp3, Ha3, Hc3, Ho3.
    rewrite app_nil_r in Hc3. rewrite Z.add_0_r in Ha3.
    split; [reflexivity|]. split; [now rewrite Hp3, Hp1|].
    split; [unfold initiated; now rewrite Hc3, Hc1|]. split; [now rewrite Ha3, Ha1|].
    unfold sent. rewrite Ho3, Ho1, lookup_app_r, Nat.sub_diag by lia. reflexivity.
  - intros Hconn k s'. subst k s'.
    set (s1 := set_settings_acknowledged true s).
    destruct (_send_pending_requests_spec s1)
      as (s2 & Hrun & Hp2 & Ha2 & Hc2 & _).
    assert (Hk : admission_count s1
                 = Nat.min (length (_pending_request_stream_pool s))
                     (Z.to_nat (allowed_max_concurrent_streams s - _active_streams s))).
    { unfold admission_count, h2_connected. simpl. now rewrite Hconn. }
    assert (Hsa : exists s3, settings_acknowledged s = (Return tt, s3) /\
              calls s3 = calls s2 /\
              _pending_request_stream_pool s3 = _pending_request_stream_pool s2 /\
              _active_streams s3 = _active_streams s2 /\
              _settings_acknowledged s3 = _settings_acknowledged s2 /\
              certificate (metadata s3)
              = Some (mkCertificate (Transport.peer_certificate (transport s2)))).
    { unfold settings_acknowledged, bind at 1. unfold modify at 1. fold s1.
      rewrite (bind_return _ _ _ _ _ Hrun). unfold modify. eexists. repeat split. }
    destruct Hsa as (s3 & -> & Hc3 & Hp3 & Ha3 & Hf3 & Hcert).
    assert (Hkeep : keeps (fun s => (_settings_acknowledged s, transport s))
                      _send_pending_requests) by (repeat keeps_step).
    specialize (Hkeep s1). rewrite Hrun in Hkeep. simpl in Hkeep.
    injection Hkeep as Hf2 Ht2.
    simpl fst. simpl snd. rewrite Hk in *.
    split; [reflexivity|]. split; [now rewrite Hf3, Hf2|].
    split; [|split; [now rewrite Hp3, Hp2|split; [now rewrite Ha3, Ha2|]]].
    + unfold initiated. rewrite Hc3. exact (initiated_app s2 _ _ Hc2).
    + now rewrite Hcert, Ht2.
Qed.

(** ** What [dataReceived] raises *)

Lemma dict_pop_None_get (k : Z) (d : list (Z * Ref)) :
  dict_pop k d = None -> dict_get k d = None.
Proof.
  induction d as [|[k0 v0] d IH]; simpl; [reflexivity|].
  destruct (k =? k0); [discriminate|].
  destruct (dict_pop k d) as [[x d']|]; [discriminate|]. intros _. now apply IH.
Qed.

Lemma pop_close_result (stream_id : Z) reason (s : H2ClientProtocol) :
  fst ((x <- pop_stream stream_id ;; stream_close x reason [] true) s)
  = match dict_get stream_id (streams s) with
    | Some _ => Return tt
    | None => Raise (KeyError stream_id)
    end.
Proof.
  unfold bind at 1, pop_stream. unfold bind at 1, gets at 1.
  destruct (dict_pop stream_id (streams s)) as [[stream d']|] eqn:Hpop.
  - rewrite (dict_pop_Some_get _ _ _ _ Hpop).
    unfold bind at 1, modify at 1. unfold bind at 1, modify at 1. unfold bind at 1.
    match goal with |- context [_send_pending_requests ?x] =>
      destruct (_send_pending_requests_spec x) as (s3 & -> & _) end.
    reflexivity.
  - now rewrite (dict_pop_None_get _ _ Hpop).
Qed.

(** The only thing a handler raises is the [KeyError] of the stream id
    its event names. *)
Lemma handle_event_result (event : Event) (s : H2ClientProtocol) :
  fst (handle_event event s) = Return tt \/
  exists id, event_stream_id event = Some id /\ fst (handle_event event s) = Raise (KeyError id).
Proof.
  destruct event; simpl handle_event; simpl event_stream_id; try (now left).
  - unfold data_received, bind, streams_getitem, bind, gets.
    destruct (dict_get stream_id (streams s)); [now left|right; eauto].
  - unfold response_received, bind, streams_getitem, bind, gets.
    destruct (dict_get stream_id (streams s)); [now left|right; eauto].
  - unfold stream_ended. rewrite pop_close_result.
    destruct (dict_get stream_id (streams s)); [now left|right; eauto].
  - unfold stream_reset. rewrite pop_close_result.
    destruct (dict_get stream_id (streams s)); [now left|right; eauto].
  - unfold window_updated. destruct (stream_id =? 0); simpl.
    + left. unfold bind, gets. now rewrite window_update_all.
    + unfold bind, streams_getitem, bind, gets.
      destruct (dict_get stream_id (streams s)); [now left|right; eauto].
  - left. unfold settings_acknowledged, bind at 1. unfold modify at 1. unfold bind at 1.
    match goal with |- context [_send_pending_requests ?x] =>
      destruct (_send_pending_requests_spec x) as (s3 & -> & _) end.
    reflexivity.
Qed.

Lemma _handle_events_result (events : list Event) : forall (s : H2ClientProtocol) e,
  fst (_handle_events events s) = Raise e ->
  exists event id, event ∈ events /\ event_stream_id event = Some id /\ e = KeyError id.
Proof.
  unfold _handle_events. induction events as [|event events IH]; intros s e H.
  - discriminate.
  - simpl in H. unfold bind in H.
    destruct (handle_event_result event s) as [Hr|(id & Hid & Hr)];
      destruct (handle_event event s) as [[[]|e'] s1]; simpl in Hr; try discriminate.
    + destruct (IH s1 e H) as (ev & id & Hin & Hid & ->).
      exists ev, id. split; [apply elem_of_cons; now right|]. now split.
    + injection Hr as ->. simpl in H. injection H as <-.
      exists event, id. split; [apply elem_of_cons; now left|]. now split.
Qed.

(** X11: what [dataReceived] returns or raises, whatever the codec.  A
    [ProtocolError] of the codec never escapes: the method returns.  Any
    other exception of the codec escapes as it is.  When the codec
    delivers events, the outcome is that of their dispatch, and the only
    thing that can then escape is the [KeyError] of a stream id named by
    one of the events. *)
Theorem dataReceived_outcome
    (receive_data : bytes -> H2Connection.t -> Result (list Event) * H2Connection.t)
    (data : bytes) (s : H2ClientProtocol) :
  match receive_data data (conn s) with
  | (Raise (ProtocolError _), _) => fst (dataReceived receive_data data s) = Return tt
  | (Raise e, _) => fst (dataReceived receive_data data s) = Raise e
  | (Return events, c) =>
      fst (dataReceived receive_data data s) = fst (_handle_events events (set_conn c s)) /\
      forall e, fst (dataReceived receive_data data s) = Raise e ->
        exists event id,
          event ∈ events /\ event_stream_id event = Some id /\ e = KeyError id
  end.
Proof.
  destruct (receive_data data (conn s)) as [r c] eqn:Hrecv.
  assert (Hd : dataReceived receive_data data s
               = match r with
                 | Return events =>
                     match _handle_events events (set_conn c s) with
                     | (Return _, s1) => run_finally _write_to_transport (Return tt, s1)
                     | (Raise e, s1) =>
                         match e with
                         | ProtocolError _ =>
                             run_finally _write_to_transport
                               (_lose_connection_with_error [CaughtError e] s1)
                         | _ => run_finally _write_to_transport (Raise e, s1)
                         end
                     end
                 | Raise e =>
                     match e with
                     | ProtocolError _ =>
                         run_finally _write_to_transport
                           (_lose_connection_with_error [CaughtError e] (set_conn c s))
                     | _ => run_finally _write_to_transport (Raise e, set_conn c s)
                     end
                 end).
  { unfold dataReceived, bind at 1. unfold resetTimeout, ret.
    unfold try_except_finally, bind at 1. unfold conn_receive_data at 1. rewrite Hrecv.
    destruct r as [events|e].
    - destruct (_handle_events events (set_conn c s)) as [[[]|e] s1]; [reflexivity|].
      now destruct e.
    - now destruct e. }
  rewrite Hd. clear Hd. destruct r as [events|e].
  - pose proof (_handle_events_result events (set_conn c s)) as Hres.
    destruct (_handle_events events (set_conn c s)) as [[[]|e] s1].
    + split; [reflexivity|]. intros e He. discriminate.
    + destruct (Hres e eq_refl) as (ev & id & Hin & Hid & ->).
      split; [reflexivity|]. intros e He. simpl in He. injection He as <-. eauto.
  - destruct e; reflexivity.
Qed.

(** ** The registry and the ids *)

Lemma keys_ok_view (s s' : H2ClientProtocol) :
  key_view s' = key_view s -> keys_ok s -> keys_ok s'.
Proof. unfold key_view, keys_ok. intros H. injection H as -> ->. auto. Qed.

Lemma update_stream_keeps_keys (f : Stream.t -> Stream.t) (stream : Ref) :
  (forall st, Stream.stream_id (f st) = Stream.stream_id st) ->
  keeps key_view (update_stream f stream).
Proof.
  intros Hf s. unfold key_view, update_stream, modify. simpl. now rewrite alter_map.
Qed.

Ltac keeps_keys_step :=
  lazymatch goal with
  | |- keeps key_view (update_stream (Stream.close _ _) _) =>
      apply update_stream_keeps_keys; intros ?; apply close_stream_id
  | |- keeps key_view (update_stream _ _) =>
      apply update_stream_keeps_keys; intros ?; reflexivity
  | |- keeps key_view (conn_data_to_send) => intros ?; reflexivity
  | |- _ => keeps_step
  end.

Lemma dict_set_entries (k : Z) (v : Ref) (d : list (Z * Ref)) :
  (NoDup (dict_keys d) -> NoDup (dict_keys (dict_set k v d))) /\
  (forall e, e ∈ dict_set k v d -> e = (k, v) \/ e ∈ d) /\
  (forall k', k' ∈ dict_keys (dict_set k v d) -> k' = k \/ k' ∈ dict_keys d).
Proof.
  induction d as [|[k0 v0] d (IH1 & IH2 & IH3)]; simpl.
  - split; [intros _; apply NoDup_singleton|]. split.
    + intros e He. apply list_elem_of_singleton in He. now left.
    + intros k' Hk'. apply list_elem_of_singleton in Hk'. now left.
  - destruct (k =? k0) eqn:E; simpl.
    + apply Z.eqb_eq in E. subst k0. split; [auto|]. split.
      * intros e He. apply elem_of_cons in He as [->|He]; [now left|].
        right. apply elem_of_cons; now right.
      * intros k' Hk'. right. exact Hk'.
    + split; [|split].
      * intros Hnd. apply NoDup_cons in Hnd as [Hk0 Hnd]. apply NoDup_cons.
        split; [|now apply IH1]. intros Hin. destruct (IH3 k0 Hin) as [->|?]; [|contradiction].
        rewrite Z.eqb_refl in E. discriminate.
      * intros e He. apply elem_of_cons in He as [->|He].
        -- right. apply elem_of_cons; now left.
        -- destruct (IH2 e He) as [->|?]; [now left|]. right. apply elem_of_cons; now right.
      * intros k' Hk'. apply elem_of_cons in Hk' as [->|Hk'].
        -- right. apply elem_of_cons; now left.
        -- destruct (IH3 k' Hk') as [->|?]; [now left|]. right. apply elem_of_cons; now right.
Qed.

Lemma pop_keys_ok (stream_id : Z) (stream : Ref) (d' : list (Z * Ref))
    (s : H2ClientProtocol) :
  keys_ok s -> dict_pop stream_id (streams s) = Some (stream, d') ->
  keys_ok (set_active_streams (_active_streams s - 1) (set_streams d' s)).
Proof.
  intros [Hnd Hall] Hpop.
  destruct (dict_pop_split _ _ _ _ Hpop) as (d1 & d2 & Hd & ->).
  unfold keys_ok. simpl. rewrite Hd in Hnd, Hall. unfold dict_keys in *.
  rewrite map_app in Hnd. rewrite map_app. simpl in Hnd.
  apply NoDup_app in Hnd as (H1 & H2 & H3). apply NoDup_cons in H3 as [_ H3].
  apply Forall_app in Hall as [Ha1 Ha2]. apply Forall_cons in Ha2 as [_ Ha2].
  split; [|apply Forall_app; now split].
  apply NoDup_app. split; [assumption|]. split; [|assumption].
  intros x Hx Hin. apply (H2 x Hx). apply elem_of_cons; now right.
Qed.

Lemma pop_close_keys_ok (stream_id : Z) reason errors :
  preserves keys_ok
    (stream <- pop_stream stream_id ;; stream_close stream reason errors true).
Proof.
  intros s Hok. unfold bind at 1, pop_stream. unfold bind at 1, gets at 1.
  destruct (dict_pop stream_id (streams s)) as [[stream d']|] eqn:Hpop; [|exact Hok].
  pose proof (pop_keys_ok stream_id stream d' s Hok Hpop) as Hok2.
  assert (Hrest : keeps key_view
            (modify (fun s0 => set_active_streams (_active_streams s0 - 1) s0) ;;
             _send_pending_requests ;; ret stream)).
  { repeat keeps_keys_step. }
  assert (Hclose : forall x, keeps key_view (stream_close x reason errors true)).
  { intros x. repeat keeps_keys_step. }
  assert (Hboth : keeps key_view
            (x <- (modify (fun s0 => set_active_streams (_active_streams s0 - 1) s0) ;;
                   _send_pending_requests ;; ret stream) ;;
             stream_close x reason errors true)).
  { apply keeps_bind; assumption. }
  unfold bind at 1, modify at 1.
  eapply keys_ok_view; [|exact Hok2].
  exact (Hboth (set_streams d' s)).
Qed.

Lemma request_keys_ok (o : PyObject) : preserves keys_ok (request o).
Proof.
  destruct o as [r|q]; [|now intros s].
  intros s [Hnd Hall]. unfold request.
  destruct (_new_stream_effect r s) as (s1 & Hnew & Hs1 & Ho1 & _).
  rewrite (bind_return _ _ _ _ _ Hnew).
  destruct (dict_set_entries (Count.next_value (_stream_id_generator s))
              (length (objects s)) (streams s)) as (Hset1 & Hset2 & _).
  assert (Hok1 : keys_ok s1).
  { unfold keys_ok. rewrite Hs1, Ho1, map_app. simpl. split; [now apply Hset1|].
    rewrite Forall_forall in Hall. apply Forall_forall. intros e He.
    destruct (Hset2 e He) as [->|Hin]; simpl.
    - rewrite lookup_app_r; rewrite length_map; [|lia]. now rewrite Nat.sub_diag.
    - rewrite lookup_app_l; [now apply Hall|].
      apply lookup_lt_Some with (x := fst e). now apply Hall. }
  assert (Hrest : forall stream : Ref, keeps key_view
            (modify (fun s0 => set_pending_request_stream_pool
                                 (_pending_request_stream_pool s0 ++ [stream]) s0) ;;
             _send_pending_requests ;; ret stream)).
  { intros stream. repeat keeps_keys_step. }
  eapply keys_ok_view; [apply (Hrest _ s1)|exact Hok1].
Qed.

Lemma run_op_keys_ok receive_data (op : Op) : preserves keys_ok (run_op receive_data op).
Proof.
  assert (Hk : forall m : M unit, keeps key_view m -> preserves keys_ok m).
  { intros m H s Hs. eapply keys_ok_view; [apply H|assumption]. }
  assert (Hev : forall event, preserves keys_ok (handle_event event)).
  { intros event. destruct event; unfold handle_event;
      try (apply Hk; repeat keeps_keys_step; fail); apply pop_close_keys_ok. }
  destruct op; unfold run_op.
  - apply preserves_bind; [apply request_keys_ok|]. intros _. apply preserves_ret.
  - unfold dataReceived. apply preserves_bind; [apply preserves_ret|]. intros _.
    apply preserves_try.
    + apply preserves_bind.
      * intros s Hs. eapply keys_ok_view; [|exact Hs].
        unfold conn_receive_data. now destruct (receive_data data (conn s)).
      * intros events. apply preserves_for_each, Hev.
    + intros e h He. destruct e; inversion He; subst. apply Hk. repeat keeps_keys_step.
    + apply Hk. repeat keeps_keys_step.
  - apply Hk. repeat keeps_keys_step.
  - intros s Hok.
    assert (Hcases : deferred_pending s \/
              exists d, _conn_lost_deferred s = Some d /\ Deferred.called d = true).
    { unfold deferred_pending. destruct (_conn_lost_deferred s) as [d|]; [|now left].
      destruct (Deferred.called d) eqn:E; [right; eauto|now left]. }
    destruct Hcases as [Hd|(d & Ed & Hc)].
    + destruct (connectionLost_run reason s Hd) as (s' & -> & _ & _ & Hs & _).
      simpl. unfold keys_ok. rewrite Hs. split; constructor.
    + destruct (connectionLost_fired reason s d Ed Hc)
        as (s' & -> & _ & _ & Hs & _ & _ & _ & Ho).
      simpl. unfold keys_ok. now rewrite Hs, Ho.
  - apply Hk. repeat keeps_keys_step.
Qed.

(** X12: in every state a connection can reach, whatever the codec, the
    registry is consistent: a stream id is registered at most once, the
    stream registered under an id is an existing stream object carrying
    that id, no stream object is registered twice, and no registered
    stream is closed or has its completion fulfilled. *)
Theorem registry_is_consistent
    (receive_data : bytes -> H2Connection.t -> Result (list Event) * H2Connection.t)
    (ops : list Op) (uri0 : string) (maxsize warnsize : Z)
    (conn_lost_deferred : option Deferred.t)
    (conn0 : H2Connection.t) (transport0 : Transport.t) :
  let s := run_ops receive_data ops
             (init uri0 maxsize warnsize conn_lost_deferred conn0 transport0) in
  NoDup (dict_keys (streams s)) /\
  NoDup (dict_values (streams s)) /\
  (forall stream_id stream,
     dict_get stream_id (streams s) = Some stream ->
     exists st, objects s !! stream = Some st /\
       Stream.stream_id st = stream_id /\
       Stream.close_reason st = None /\ Stream.completion st = None).
Proof.
  intros s.
  assert (H : forall s0, keys_ok s0 -> keys_ok (run_ops receive_data ops s0)).
  { induction ops as [|op ops IH]; intros s0 Hs0; simpl; [assumption|].
    apply IH. now apply run_op_keys_ok. }
  assert (Hkeys : keys_ok s) by (apply H; split; constructor).
  pose proof (registry_ok_reachable receive_data ops uri0 maxsize warnsize
                conn_lost_deferred conn0 transport0) as Hreg.
  fold s in Hreg. destruct Hkeys as [Hnd Hall]. destruct Hreg as [Hndv Hopen].
  split; [assumption|]. split; [assumption|].
  intros stream_id stream Hget.
  assert (Hin : (stream_id, stream) ∈ streams s).
  { clear -Hget. induction (streams s) as [|[k v] d IH]; simpl in Hget; [discriminate|].
    destruct (stream_id =? k) eqn:E.
    - apply Z.eqb_eq in E. injection Hget as ->. subst k. apply elem_of_cons; now left.
    - apply elem_of_cons; right. now apply IH. }
  rewrite Forall_forall in Hall. rewrite Forall_forall in Hopen.
  specialize (Hall _ Hin). simpl in Hall.
  destruct (Hopen stream) as (st & Hst & Hcr & Hco).
  { unfold dict_values. apply list_elem_of_fmap. exists (stream_id, stream). now split. }
  exists st. split; [assumption|]. split; [|now split].
  change (map ?f ?l) with (f <$> l) in Hall. rewrite list_lookup_fmap, Hst in Hall.
  simpl in Hall. now injection Hall.
Qed.

(** ** The limit on concurrent streams *)









